(** * MusicLED: wavelet BPM detector and ALSA capture set-up

    A shallow embedding of [src/wavelet_bpm_detector.h] (class
    [WaveletBPMDetector]) and of the constructor of [src/audio_data.cpp].

    Modelling conventions.
    - [double] is IEEE 754 binary64: Rocq's primitive [float], so every
      arithmetic operation, comparison and rounding is the one the C++
      program performs.
    - [int] is a 32-bit signed integer carried as a [Z].  Signed overflow and
      an out-of-range conversion from [double] are undefined behaviour in
      C++; they are modelled as the faults [IntOverflow], [IntConversion].
    - [std::vector<double>] is a [list float].  [operator[]] outside
      [0 .. size) is undefined behaviour; it is modelled as the fault
      [OutOfBounds].  A vector constructed with a negative [int] size
      (converted to a huge [size_t]) throws, and so does one constructed
      from a reversed iterator range: fault [LengthError].
      Vector sizes are natural numbers; the [unsigned int] counters of the
      loops over a whole vector and the index returned by [detectPeak] are
      taken not to wrap, which holds for every vector of fewer than 2^31
      elements.
    - A computation is a value of [result A]: [Ok a] or [Err e].  The
      functions that cannot fault ([abs], [detectPeak]) are plain functions.
    - [Daubechies8::decompose] ([daubechies8.h]) and the median of the
      per-window estimates are not in the sources: the former is a parameter
      of [computeWindowBpm], and both are modelled from the specification in
      the modules [Daubechies8] and [BpmEstimator]. *)

From Stdlib Require Import ZArith Lia Bool Floats Uint63 String.
From Stdlib Require Import Sorting.Sorted Sorting.Permutation.
From stdpp Require Import base list.

Local Open Scope Z_scope.

(** ** Faults and the error monad *)

Inductive error : Set :=
| OutOfBounds        (* vector access outside [0 .. size) *)
| IntOverflow        (* signed [int] arithmetic overflow *)
| IntConversion      (* [(int)x] for a NaN, an infinity or an out-of-range [x] *)
| DivisionByZero     (* integer division by zero *)
| LengthError        (* vector constructed with a negative number of elements *)
| InsufficientData   (* window too short for the decomposition depth *)
| NoData.            (* median of an empty history *)

Inductive result (A : Type) : Type :=
| Ok (a : A)
| Err (e : error).
Arguments Ok {A} a.
Arguments Err {A} e.

Definition bind {A B : Type} (m : result A) (k : A -> result B) : result B :=
  match m with
  | Ok a => k a
  | Err e => Err e
  end.

Notation "x <- m ;; k" := (bind m (fun x => k))
  (at level 100, m at next level, right associativity, only parsing).

(** ** 32-bit [int] *)

Definition INT_MIN : Z := - 2 ^ 31.
Definition INT_MAX : Z := 2 ^ 31 - 1.

Definition in_int (z : Z) : bool := (INT_MIN <=? z) && (z <=? INT_MAX).

(** Conversion of an unsigned size to [int]: reduction modulo 2^32 into the
    signed range. *)
Definition int_of_size (n : nat) : Z :=
  (Z.of_nat n + 2 ^ 31) mod 2 ^ 32 - 2 ^ 31.

(** Signed addition; overflow is undefined behaviour. *)
Definition int_add (a b : Z) : result Z :=
  if in_int (a + b) then Ok (a + b) else Err IntOverflow.

(** ** [double] *)

Definition DBL_MIN : float := 0x1p-1022%float.

(** Truncation toward zero of a finite double, as an unbounded integer. *)
Definition trunc_double (x : float) : option Z :=
  match Prim2SF x with
  | S754_zero _ => Some 0
  | S754_finite s m e =>
      let mag := Z.shiftl (Z.pos m) e in
      Some (if s then - mag else mag)
  | S754_infinity _ | S754_nan => None
  end.

(** [(int)x] for a double [x]. *)
Definition double_to_int (x : float) : result Z :=
  match trunc_double x with
  | Some z => if in_int z then Ok z else Err IntConversion
  | None => Err IntConversion
  end.

(** [(double)z] for an [int] [z]: exact, every [int] fits in 53 bits. *)
Definition int_to_double (z : Z) : float :=
  if z <? 0 then PrimFloat.opp (PrimFloat.of_uint63 (Uint63.of_Z (- z)))
  else PrimFloat.of_uint63 (Uint63.of_Z z).

(** [(double)n] for a vector size [n]. *)
Definition size_to_double (n : nat) : float :=
  PrimFloat.of_uint63 (Uint63.of_Z (Z.of_nat n)).

(** [std::max(a, b)] is [(a < b) ? b : a]. *)
Definition std_max (a b : float) : float :=
  if PrimFloat.ltb a b then b else a.

(** ** [std::vector<double>] *)

Abbreviation vec := (list float).

(** [std::vector<double> v(n)] and [v(n, 0)]: [n] zeros. *)
Definition new_vector (n : Z) : result vec :=
  if n <? 0 then Err LengthError else Ok (replicate (Z.to_nat n) 0%float).

(** [v[i]] read. *)
Definition load (v : vec) (i : Z) : result float :=
  if i <? 0 then Err OutOfBounds
  else match v !! Z.to_nat i with
       | Some x => Ok x
       | None => Err OutOfBounds
       end.

(** [v[i] = x]. *)
Definition store (v : vec) (i : Z) (x : float) : result vec :=
  if (0 <=? i) && (i <? Z.of_nat (length v))
  then Ok (<[Z.to_nat i := x]> v)
  else Err OutOfBounds.

(** [for (int i = lo; i < lo + n; ++i) body]: [n] iterations threading the
    loop state [s]; a fault in the body aborts the loop. *)
Fixpoint for_loop {S : Type} (n : nat) (i : Z) (body : Z -> S -> result S) (s : S)
  : result S :=
  match n with
  | O => Ok s
  | Datatypes.S n' => s' <- body i s ;; for_loop n' (i + 1) body s'
  end.

(** [std::vector<double> tmp(v.begin() + first, v.begin() + last)].  The
    constructor first takes the distance [last - first] as the number of
    elements: for a reversed range the negative distance becomes a huge
    [size_t] and the constructor throws [std::length_error] before it reads
    any element.  Otherwise the range must lie inside the vector: an
    iterator outside [begin .. end] is undefined behaviour, and the
    elements of a range that leaves the vector are read out of bounds. *)
Definition slice (v : vec) (first last : Z) : result vec :=
  if last <? first then Err LengthError
  else if (0 <=? first) && (last <=? Z.of_nat (length v))
  then Ok (take (Z.to_nat (last - first)) (drop (Z.to_nat first) v))
  else Err OutOfBounds.

(** ** The detector, [src/wavelet_bpm_detector.h] *)

Module WaveletBPMDetector.

(** [std::pair] of approximation ([first]) and detail ([second])
    coefficients; the type is declared in [daubechies8.h]. *)
Definition decomposition : Type := vec * vec.

(** [detectPeak], lines 108-129. *)
Fixpoint find_eq (data : vec) (i : Z) (target : float) : option Z :=
  match data with
  | [] => None
  | x :: rest =>
      if PrimFloat.eqb x target then Some i else find_eq rest (i + 1) target
  end.

Definition peak_max (data : vec) : float :=
  fold_left (fun max x => std_max max (PrimFloat.abs x)) data DBL_MIN.

Definition detectPeak (data : vec) : Z :=
  let max := peak_max data in
  match find_eq data 0 max with
  | Some i => i
  | None =>
      match find_eq data 0 (PrimFloat.opp max) with
      | Some i => i
      | None => -1
      end
  end.

(** [undersample], lines 131-139.  The loop state is the pair
    ([result], [j]); [j] is advanced by [pace] and never read.
    [undersample_step] is one iteration: [result[i] = data[i]], then
    [j += pace]. *)
Definition undersample_step (data : vec) (pace : Z) (i : Z) (st : vec * Z)
  : result (vec * Z) :=
  x <- load data i ;;
  res <- store (fst st) i x ;;
  j <- int_add (snd st) pace ;;
  Ok (res, j).

Definition undersample (data : vec) (pace : Z) : result vec :=
  let length := int_of_size (length data) in
  if pace =? 0 then Err DivisionByZero else
  result0 <- new_vector (Z.quot length pace) ;;
  st <- for_loop (Z.to_nat length) 0 (undersample_step data pace) (result0, 0) ;;
  Ok (fst st).

(** [abs], lines 141-147. *)
Definition abs (data : vec) : vec := map PrimFloat.abs data.

(** [std::accumulate(first, last, 0)]: the accumulator has the type of the
    seed, [int]; each step computes [init + *first] in [double] and converts
    the sum back to [int]. *)
Fixpoint accumulate_int (data : vec) (init : Z) : result Z :=
  match data with
  | [] => Ok init
  | x :: rest =>
      acc <- double_to_int (int_to_double init + x)%float ;;
      accumulate_int rest acc
  end.

(** [normalize], lines 149-156. *)
Definition normalize (data : vec) : result vec :=
  sum <- accumulate_int data 0 ;;
  let mean := (int_to_double sum / size_to_double (length data))%float in
  Ok (map (fun value => (value - mean)%float) data).

(** [add], lines 158-163.  [add_step] is one iteration:
    [data[i] += plus[i]]. *)
Definition add_step (plus : vec) (i : Z) (data : vec) : result vec :=
  d <- load data i ;;
  p <- load plus i ;;
  store data i (d + p)%float.

Definition add (data plus : vec) : result vec :=
  for_loop (length data) 0 (add_step plus) data.

(** [correlate], lines 165-177.  [correlate_term] is the body of the inner
    loop, [correlate_lag] the inner loop for one lag [k]. *)
Definition correlate_term (data : vec) (n k : Z) (i : Z) (correlation : vec)
  : result vec :=
  ki <- int_add k i ;;
  if ki <? n then
    c <- load correlation k ;;
    x <- load data i ;;
    y <- load data ki ;;
    store correlation k (c + x * y)%float
  else Ok correlation.

Definition correlate_lag (data : vec) (n : Z) (k : Z) (correlation : vec)
  : result vec :=
  for_loop (Z.to_nat n) 0 (correlate_term data n k) correlation.

Definition correlate (data : vec) : result vec :=
  let n := int_of_size (length data) in
  correlation0 <- new_vector n ;;
  for_loop (Z.to_nat n) 0 (correlate_lag data n) correlation0.

(** [decomp[i]]. *)
Definition level (decomp : list decomposition) (i : Z) : result decomposition :=
  if i <? 0 then Err OutOfBounds
  else match decomp !! Z.to_nat i with
       | Some d => Ok d
       | None => Err OutOfBounds
       end.

(** [computeWindowBpm], line 56: the reference length [dCMinLength]. *)
Definition dCMinLength (decomp : list decomposition) (maxDecimation : float)
  : result Z :=
  d0 <- level decomp 0 ;;
  q <- double_to_int (size_to_double (length (snd d0)) / maxDecimation)%float ;;
  int_add q 1.

(** [computeWindowBpm], lines 61-78: one iteration of the loop over the
    levels.  The loop state is the pair ([dCSum], [pace]). *)
Definition envelope_step (decomp : list decomposition) (loop : Z) (st : vec * Z)
  : result (vec * Z) :=
  d <- level decomp loop ;;
  dC <- undersample (snd d) (snd st) ;;
  dC <- normalize (abs dC) ;;
  dCSum <- (if loop =? 0 then Ok dC else add (fst st) dC) ;;
  Ok (dCSum, Z.shiftr (snd st) 1).

(** [computeWindowBpm], lines 56-83: the composite envelope [dCSum]. *)
Definition envelopeSum (decomp : list decomposition) (levels pace : Z)
    (maxDecimation : float) : result vec :=
  minLength <- dCMinLength decomp maxDecimation ;;
  dCSum0 <- new_vector minLength ;;
  st <- for_loop (Z.to_nat levels) 0 (envelope_step decomp) (dCSum0, pace) ;;
  last <- level decomp (levels - 1) ;;
  aC <- normalize (abs (fst last)) ;;
  add (fst st) aC.

(** [computeWindowBpm], lines 85-94: the absolute lag [realLocation] of the
    correlation peak. *)
Definition peakLag (dCSum : vec) (minIndex maxIndex : Z) : result Z :=
  correlated <- correlate dCSum ;;
  correlatedTmp <- slice correlated minIndex maxIndex ;;
  let location := detectPeak correlatedTmp in
  int_add minIndex location.

(** [computeWindowBpm], line 95. *)
Definition bpmOfLag (sampleRate maxDecimation : float) (realLocation : Z) : float :=
  (60.0 / int_to_double realLocation * (sampleRate / maxDecimation))%float.

(** [computeWindowBpm], lines 85-95. *)
Definition windowBpm (sampleRate maxDecimation : float) (minIndex maxIndex : Z)
    (dCSum : vec) : result float :=
  realLocation <- peakLag dCSum minIndex maxIndex ;;
  Ok (bpmOfLag sampleRate maxDecimation realLocation).

(** [computeWindowBpm], lines 51-52: the lag search range. *)
Definition lagRange (sampleRate maxDecimation : float) : result (Z * Z) :=
  minIndex <- double_to_int (60.0 / 220.0 * sampleRate / maxDecimation)%float ;;
  maxIndex <- double_to_int (60.0 / 40.0 * sampleRate / maxDecimation)%float ;;
  Ok (minIndex, maxIndex).

(** [computeWindowBpm], lines 46-96.  [Daubechies8::decompose] is declared
    in [daubechies8.h], which is not among the sources: it is the parameter
    [decompose].  [std::exp2(levels - 1)] is the exact power of two. *)
Definition computeWindowBpm
    (decompose : vec -> Z -> result (list decomposition))
    (sampleRate : float) (data : vec) : result float :=
  let levels := 4 in
  let pace := 2 ^ (levels - 1) in
  let maxDecimation := int_to_double pace in
  range <- lagRange sampleRate maxDecimation ;;
  decomp <- decompose data levels ;;
  dCSum <- envelopeSum decomp levels pace maxDecimation ;;
  windowBpm sampleRate maxDecimation (fst range) (snd range) dCSum.

End WaveletBPMDetector.

(** ** The wavelet decomposer, specification section 4.1 *)

Module Daubechies8.

Section FilterBank.

(** The two analysis channels, each already downsampled by 2.  The filter
    coefficients and the boundary handling are fixed by the missing
    header; nothing below depends on them. *)
Variables lowPass highPass : vec -> vec.

(** Whether a sequence of [n] samples can be halved [levels] times without
    reaching the empty sequence. *)
Fixpoint supportsHalvings (n levels : nat) : bool :=
  match levels with
  | O => true
  | S k => let h := Nat.div n 2 in
           if Nat.eqb h 0 then false else supportsHalvings h k
  end.

Fixpoint cascade (approximation : vec) (levels : nat)
  : list WaveletBPMDetector.decomposition :=
  match levels with
  | O => []
  | S k =>
      let a := lowPass approximation in
      (a, highPass approximation) :: cascade a k
  end.

(** Modelled from the spec: [Daubechies8::decompose] ([daubechies8.h] is
    not among the sources).  A cascade of [levels] two-channel analysis
    steps, level 0 on the raw window and level i > 0 on the approximation
    of level i - 1; it fails with [InsufficientData] when the input cannot
    support [levels] successive halvings. *)
Definition decompose (samples : vec) (levels : Z)
  : result (list WaveletBPMDetector.decomposition) :=
  if supportsHalvings (length samples) (Z.to_nat levels)
  then Ok (cascade samples (Z.to_nat levels))
  else Err InsufficientData.

End FilterBank.

End Daubechies8.

(** ** Cross-window aggregation, specification section 4.6 *)

Module BpmEstimator.

(** The sorted copy of the history: insertion with [operator<]. *)
Fixpoint insertSorted (x : float) (sorted : vec) : vec :=
  match sorted with
  | [] => [x]
  | y :: rest =>
      if PrimFloat.ltb x y then x :: sorted else y :: insertSorted x rest
  end.

Definition sortedCopy (history : vec) : vec := foldr insertSorted [] history.

(** Modelled from the spec: [currentEstimate] (the class in
    [wavelet_bpm_detector.h] keeps no history and has no median operation;
    its header comment only announces one).  The median of the history:
    [NoData] when it is empty, the middle value of the sorted copy for an
    odd count, the arithmetic mean of the two central values for an even
    count. *)
Definition currentEstimate (history : vec) : result float :=
  let n := length history in
  let sorted := sortedCopy history in
  if Nat.eqb n 0 then Err NoData
  else if Nat.odd n then Ok (nth (Nat.div n 2) sorted 0%float)
  else Ok ((nth (Nat.div n 2 - 1) sorted 0 + nth (Nat.div n 2) sorted 0) / 2)%float.

End BpmEstimator.

(** ** Capture set-up, [src/audio_data.cpp] *)

Module AudioData.

(** The sample formats told apart by the constructor; every other value of
    [snd_pcm_format_t] is [SND_PCM_FORMAT_OTHER]. *)
Inductive snd_pcm_format_t : Set :=
| SND_PCM_FORMAT_S8 | SND_PCM_FORMAT_U8
| SND_PCM_FORMAT_S16_LE | SND_PCM_FORMAT_S16_BE
| SND_PCM_FORMAT_U16_LE | SND_PCM_FORMAT_U16_BE
| SND_PCM_FORMAT_S24_LE | SND_PCM_FORMAT_S24_BE
| SND_PCM_FORMAT_U24_LE | SND_PCM_FORMAT_U24_BE
| SND_PCM_FORMAT_S32_LE | SND_PCM_FORMAT_S32_BE
| SND_PCM_FORMAT_U32_LE | SND_PCM_FORMAT_U32_BE
| SND_PCM_FORMAT_OTHER.

(** What the ALSA library answers to the calls of the constructor: the
    return codes of the three checked calls, the negotiated parameters and
    the text of [snd_strerror]. *)
Record alsa : Type := {
  snd_pcm_open : Z;
  snd_pcm_hw_params : Z;
  snd_pcm_prepare : Z;
  snd_pcm_hw_params_get_format : snd_pcm_format_t;
  snd_pcm_hw_params_get_rate : Z;
  snd_pcm_hw_params_get_period_size : Z;
  snd_pcm_hw_params_get_channels : Z;
  snd_strerror : Z -> string
}.

(** The data members set by the constructor ([audio_data.h] declares them). *)
Record members : Type := {
  format : Z;
  rate : Z;
  frames : Z;
  channels : Z
}.

(** How the constructor ends: it returns, leaving an object, or it calls
    [exit] after printing on [stderr]. *)
Inductive outcome : Type :=
| Constructed (object : members)
| Exit (status : Z) (stderr : string).

Definition EXIT_FAILURE : Z := 1.

Definition newline : string := String (Ascii.ascii_of_nat 10) EmptyString.

Definition bits (f : snd_pcm_format_t) (unchanged : Z) : Z :=
  match f with
  | SND_PCM_FORMAT_S8 | SND_PCM_FORMAT_U8 => 8
  | SND_PCM_FORMAT_S16_LE | SND_PCM_FORMAT_S16_BE
  | SND_PCM_FORMAT_U16_LE | SND_PCM_FORMAT_U16_BE => 16
  | SND_PCM_FORMAT_S24_LE | SND_PCM_FORMAT_S24_BE
  | SND_PCM_FORMAT_U24_LE | SND_PCM_FORMAT_U24_BE => 24
  | SND_PCM_FORMAT_S32_LE | SND_PCM_FORMAT_S32_BE
  | SND_PCM_FORMAT_U32_LE | SND_PCM_FORMAT_U32_BE => 32
  | SND_PCM_FORMAT_OTHER => unchanged
  end.

(** [audio_data::audio_data], lines 6-91.  [initial] holds the values the
    members have when the body starts. *)
Definition audio_data (lib : alsa) (initial : members) : outcome :=
  let err := snd_pcm_open lib in
  if err <? 0 then
    Exit EXIT_FAILURE ("error opening stream: " ++ snd_strerror lib err ++ newline)%string
  else
  let err := snd_pcm_hw_params lib in
  if err <? 0 then
    Exit EXIT_FAILURE ("unable to set hw parameters: " ++ snd_strerror lib err ++ newline)%string
  else
  let err := snd_pcm_prepare lib in
  if err <? 0 then
    Exit EXIT_FAILURE
      ("cannot prepare audio interface for use (" ++ snd_strerror lib err ++ ")" ++ newline)%string
  else
  let format := bits (snd_pcm_hw_params_get_format lib) (format initial) in
  let rate := snd_pcm_hw_params_get_rate lib in
  let frames := snd_pcm_hw_params_get_period_size lib in
  let channels := snd_pcm_hw_params_get_channels lib in
  if (format =? -1) || (rate =? 0) then
    Exit EXIT_FAILURE ("Could not get rate and/or format, quiting..." ++ newline)%string
  else
    Constructed {| format := format; rate := rate; frames := frames; channels := channels |}.

(** The three set-up failures the constructor checks for. *)
Definition setupFails (lib : alsa) : Prop :=
  snd_pcm_open lib < 0 \/ snd_pcm_hw_params lib < 0 \/ snd_pcm_prepare lib < 0.

Definition terminates (o : outcome) : Prop :=
  match o with
  | Exit _ _ => True
  | Constructed _ => False
  end.

End AudioData.

(** ** The operations as the specification words them *)

Module Spec.

(** The sum of a sequence of doubles, accumulated in [double] from the
    seed [0.0], in ascending index order. *)
Definition floatSum (l : vec) : float := fold_left PrimFloat.add l 0%float.

(** The arithmetic mean, accumulated in [double]. *)
Definition arithmeticMean (l : vec) : float :=
  (floatSum l / size_to_double (length l))%float.

(** The products [x[i] * x[i+k]] for [0 <= i] and [i + k < n]. *)
Definition lagProducts (x : vec) (k : nat) : vec :=
  map (fun i => (nth i x 0 * nth (i + k) x 0)%float) (seq 0 (length x - k)).

(** Section 4.4: [y[k]] is the sum of the lag-[k] products, for [k] in
    [0 .. n). *)
Definition autocorrelation (x : vec) : vec :=
  map (fun k => floatSum (lagProducts x k)) (seq 0 (length x)).

End Spec.

(** No element greater than its successor, by [operator<]. *)
Definition notGreater (a b : float) : Prop := PrimFloat.ltb b a = false.

(** A positive normal double whose magnitude (the exponent of the power of
    two just above it) lies in [lo .. hi]. *)
Definition normalPos (x : spec_float) (lo hi : Z) : Prop :=
  exists m e, x = S754_finite false m e /\
              2 ^ 52 <= Z.pos m < 2 ^ 53 /\ lo <= 53 + e <= hi.

(** [fits K m e]: the value [m * 2^e] is below [2^K]. *)
Definition fits (K m e : Z) : Prop := e <= K /\ 0 <= m < 2 ^ (K - e).

(** A double of sign [s], or a NaN. *)
Definition signed (s : bool) (x : spec_float) : Prop :=
  match x with
  | S754_zero s' | S754_infinity s' | S754_finite s' _ _ => s' = s
  | S754_nan => True
  end.

(** A zero, or a finite double of sign [s] below [2^K] in absolute value. *)
Definition small (s : bool) (K : Z) (x : spec_float) : Prop :=
  x = S754_zero s \/ exists m e, x = S754_finite s m e /\ fits K (Z.pos m) e.

(** A zero of either sign. *)
Definition isZero (x : float) : Prop := x = 0%float \/ x = (-0)%float.

(** The inner loop of [correlate] read as pure updates: [term_acc] is what
    iteration [i] of lag [k] does to the accumulator [correlation[k]],
    [term_pure] what it does to the vector. *)
Definition term_acc (data : vec) (k i : nat) (c : float) : float :=
  if (i + k <? length data)%nat
  then (c + nth i data 0 * nth (i + k) data 0)%float
  else c.

Definition term_pure (data : vec) (k i : nat) (correlation : vec) : vec :=
  if (i + k <? length data)%nat
  then <[k := term_acc data k i (nth k correlation 0%float)]> correlation
  else correlation.

(** * Properties *)

(** ** The error monad, [int] and vectors *)

Lemma bind_Ok {A B : Type} (m : result A) (k : A -> result B) (b : B) :
  bind m k = Ok b -> exists a, m = Ok a /\ k a = Ok b.
Proof.
  destruct m as [a|e]; simpl; intros H; [eauto | discriminate].
Qed.

Tactic Notation "bind_inv" hyp(H) "as" ident(a) ident(Ha) :=
  apply bind_Ok in H; destruct H as (a & Ha & H).

Lemma int_of_size_small (n : nat) :
  Z.of_nat n <= INT_MAX -> int_of_size n = Z.of_nat n.
Proof.
  unfold int_of_size, INT_MAX. intros H.
  rewrite Z.mod_small; lia.
Qed.

Lemma int_add_Ok (a b : Z) :
  INT_MIN <= a + b <= INT_MAX -> int_add a b = Ok (a + b).
Proof.
  unfold int_add, in_int. intros [H1 H2].
  apply Z.leb_le in H1, H2. now rewrite H1, H2.
Qed.

Lemma int_add_inv (a b c : Z) :
  int_add a b = Ok c -> c = a + b /\ INT_MIN <= c <= INT_MAX.
Proof.
  unfold int_add, in_int. intros H.
  destruct (INT_MIN <=? a + b) eqn:H1; [|discriminate].
  destruct (a + b <=? INT_MAX) eqn:H2; [|discriminate].
  simpl in H. injection H as <-.
  apply Z.leb_le in H1, H2. lia.
Qed.

Lemma double_to_int_inv (x : float) (z : Z) :
  double_to_int x = Ok z -> trunc_double x = Some z /\ INT_MIN <= z <= INT_MAX.
Proof.
  unfold double_to_int, in_int. destruct (trunc_double x) as [t|]; [|discriminate].
  destruct (INT_MIN <=? t) eqn:H1; [|discriminate].
  destruct (t <=? INT_MAX) eqn:H2; [|discriminate].
  intros [= <-]. apply Z.leb_le in H1, H2. auto.
Qed.

Lemma new_vector_Ok (n : Z) (v : vec) :
  new_vector n = Ok v -> 0 <= n /\ v = replicate (Z.to_nat n) 0%float.
Proof.
  unfold new_vector. destruct (n <? 0) eqn:Hn; [discriminate|].
  intros [= <-]. apply Z.ltb_ge in Hn. auto.
Qed.

Lemma load_Ok (v : vec) (i : nat) (x : float) :
  v !! i = Some x -> load v (Z.of_nat i) = Ok x.
Proof.
  unfold load. intros H.
  destruct (Z.of_nat i <? 0) eqn:Hi; [apply Z.ltb_lt in Hi; lia|].
  now rewrite Nat2Z.id, H.
Qed.

Lemma store_Ok (v : vec) (i : nat) (x : float) :
  (i < length v)%nat -> store v (Z.of_nat i) x = Ok (<[i := x]> v).
Proof.
  unfold store. intros H.
  destruct (0 <=? Z.of_nat i) eqn:H0; [|apply Z.leb_gt in H0; lia].
  destruct (Z.of_nat i <? Z.of_nat (length v)) eqn:H1; [|apply Z.ltb_ge in H1; lia].
  now rewrite Nat2Z.id.
Qed.

Lemma store_out_of_bounds (v : vec) (i : Z) (x : float) :
  Z.of_nat (length v) <= i -> store v i x = Err OutOfBounds.
Proof.
  unfold store. intros H.
  destruct (i <? Z.of_nat (length v)) eqn:H1; [apply Z.ltb_lt in H1; lia|].
  now rewrite andb_false_r.
Qed.

Lemma store_length (v v' : vec) (i : Z) (x : float) :
  store v i x = Ok v' -> length v' = length v.
Proof.
  unfold store. destruct (_ && _); [|discriminate].
  intros [= <-]. apply length_insert.
Qed.

(** A property of the loop state kept by every iteration that returns, from
    index [lo] on, is kept by the loop. *)
Lemma for_loop_invariant_from {S : Type} (lo : Z) (P : S -> Prop)
    (body : Z -> S -> result S) :
  (forall i s s', lo <= i -> P s -> body i s = Ok s' -> P s') ->
  forall n i s s', lo <= i -> P s -> for_loop n i body s = Ok s' -> P s'.
Proof.
  intros Hbody n. induction n as [|n IH]; simpl; intros i s s' Hi Hs H.
  - now injection H as <-.
  - bind_inv H as s1 Hs1. apply (IH (i + 1) s1); [lia|eauto|assumption].
Qed.

Lemma for_loop_invariant {S : Type} (P : S -> Prop) (body : Z -> S -> result S) :
  (forall i s s', P s -> body i s = Ok s' -> P s') ->
  forall n i s s', P s -> for_loop n i body s = Ok s' -> P s'.
Proof.
  intros Hbody n i s s' Hs H.
  apply (for_loop_invariant_from i P body) with (n := n) (i := i) (s := s);
    [eauto|lia|assumption|assumption].
Qed.

(** A loop whose body, on the states satisfying [P], never faults and
    computes the pure step [f], is the left fold of [f] over the indices. *)
Lemma for_loop_fold {S : Type} (P : S -> Prop) (f : nat -> S -> S)
    (body : Z -> S -> result S) (hi : nat) :
  (forall j s, P s -> (j < hi)%nat ->
               body (Z.of_nat j) s = Ok (f j s) /\ P (f j s)) ->
  forall n i s, P s -> (i + n <= hi)%nat ->
    for_loop n (Z.of_nat i) body s = Ok (fold_left (fun s j => f j s) (seq i n) s) /\
    P (fold_left (fun s j => f j s) (seq i n) s).
Proof.
  intros Hbody n. induction n as [|n IH]; intros i s Hs Hn; simpl; [auto|].
  destruct (Hbody i s Hs ltac:(lia)) as [-> HP]. simpl.
  replace (Z.of_nat i + 1) with (Z.of_nat (Datatypes.S i)) by lia.
  apply IH; [assumption|lia].
Qed.

Lemma lookup_nth (v : vec) (i : nat) :
  (i < length v)%nat -> v !! i = Some (nth i v 0%float).
Proof.
  revert i. induction v as [|x v IH]; intros [|i] H; simpl in *; try lia; auto.
  apply IH. lia.
Qed.

(** A loop that rewrites element [k] at iteration [k] fills a vector of zeros
    from the left. *)
Lemma fold_lags (g : nat -> float -> float) (m : nat) :
  forall (done : vec),
    fold_left (fun c k => <[k := g k (nth k c 0%float)]> c)
      (seq (length done) m) (done ++ replicate m 0%float) =
    done ++ map (fun k => g k 0%float) (seq (length done) m).
Proof.
  induction m as [|m IH]; intros done; simpl; [reflexivity|].
  rewrite app_nth2 by lia. rewrite Nat.sub_diag. simpl.
  rewrite insert_app_r_alt by lia. rewrite Nat.sub_diag. simpl.
  specialize (IH (done ++ [g (length done) 0%float])).
  rewrite length_app in IH. simpl in IH. rewrite Nat.add_1_r in IH.
  rewrite <- !app_assoc in IH. simpl in IH. exact IH.
Qed.

(** ** [undersample] *)

Section Undersample.

Variables (data : vec) (pace : Z).

(** From iteration [i] on, with [i] not beyond the size [q] of the result
    and at least one iteration left at index [q], the loop stops on the
    store at index [q]: the result has no such element. *)
Lemma undersample_loop_faults (q : nat) :
  2 <= pace ->
  Z.of_nat q * pace <= Z.of_nat (length data) <= INT_MAX ->
  forall (n i : nat) (res : vec),
    length res = q -> (i <= q)%nat -> (q < i + n)%nat ->
    (i + n <= length data)%nat ->
    for_loop n (Z.of_nat i) (WaveletBPMDetector.undersample_step data pace)
      (res, Z.of_nat i * pace) = Err OutOfBounds.
Proof.
  intros Hpace Hq n. induction n as [|n IH]; intros i res Hres Hi Hn Hlen; [lia|].
  simpl. unfold WaveletBPMDetector.undersample_step at 1. simpl.
  destruct (lookup_lt_is_Some_2 data i ltac:(lia)) as [x Hx].
  rewrite (load_Ok _ _ _ Hx). simpl.
  destruct (decide (i = q)) as [->|Hne].
  - rewrite store_out_of_bounds by lia. reflexivity.
  - rewrite store_Ok by lia. simpl.
    assert (Hstep : (Z.of_nat i + 1) * pace <= Z.of_nat q * pace)
      by (apply Z.mul_le_mono_nonneg_r; lia).
    assert (Hmin : INT_MIN <= 0) by (vm_compute; discriminate).
    assert (Hnonneg : 0 <= Z.of_nat i * pace) by (apply Z.mul_nonneg_nonneg; lia).
    rewrite int_add_Ok by (clear - Hq Hstep Hmin Hnonneg Hpace; lia). simpl.
    replace (Z.of_nat i + 1) with (Z.of_nat (Datatypes.S i)) by lia.
    replace (Z.of_nat i * pace + pace) with (Z.of_nat (Datatypes.S i) * pace)
      by (rewrite Nat2Z.inj_succ; ring).
    clear Hstep Hnonneg Hmin Hq.
    apply IH; rewrite ?length_insert; lia.
Qed.

End Undersample.

Lemma undersample_length (data r : vec) (pace : Z) :
  WaveletBPMDetector.undersample data pace = Ok r ->
  Z.of_nat (length r) = Z.quot (int_of_size (length data)) pace.
Proof.
  unfold WaveletBPMDetector.undersample.
  destruct (pace =? 0); [discriminate|]. intros H.
  bind_inv H as result0 Hnew. apply new_vector_Ok in Hnew as [Hq ->].
  bind_inv H as st Hloop. injection H as <-.
  apply (for_loop_invariant
           (fun st => length (fst st) = Z.to_nat (Z.quot (int_of_size (length data)) pace)))
    in Hloop.
  - rewrite Hloop. lia.
  - intros i s s' Hs Hb. bind_inv Hb as x Hx. bind_inv Hb as res Hres.
    bind_inv Hb as j Hj. injection Hb as <-. simpl.
    apply store_length in Hres. congruence.
  - simpl. apply length_replicate.
Qed.

(** C1: on the input [1,2,3,4,5,6] with pace 2 the code does not produce
    the decimated sequence [1,3,5].  The result is allocated with 3
    elements; the first three iterations copy [data[i]] to [result[i]],
    giving [1,2,3] (while [j] runs to 6 unread); the fourth iteration stores
    [data[3]] at index 3, outside the result. *)
Theorem undersample_example_out_of_bounds :
  for_loop 3 0 (WaveletBPMDetector.undersample_step [1; 2; 3; 4; 5; 6]%float 2)
    ([0; 0; 0]%float, 0) = Ok ([1; 2; 3]%float, 6) /\
  WaveletBPMDetector.undersample_step [1; 2; 3; 4; 5; 6]%float 2 3
    ([1; 2; 3]%float, 6) = Err OutOfBounds /\
  WaveletBPMDetector.undersample [1; 2; 3; 4; 5; 6]%float 2 = Err OutOfBounds.
Proof. repeat split; vm_compute; reflexivity. Qed.

Lemma undersample_nonempty_faults (data : vec) (pace : Z) :
  data <> [] ->
  2 <= pace ->
  Z.of_nat (length data) <= INT_MAX ->
  WaveletBPMDetector.undersample data pace = Err OutOfBounds.
Proof.
  intros Hne Hpace Hlen.
  unfold WaveletBPMDetector.undersample.
  rewrite int_of_size_small by assumption.
  destruct (pace =? 0) eqn:Hp; [apply Z.eqb_eq in Hp; lia|].
  assert (Hpos : 0 < Z.of_nat (length data)) by (destruct data; [congruence|simpl; lia]).
  assert (Hq : 0 <= Z.quot (Z.of_nat (length data)) pace) by (apply Z.quot_pos; lia).
  assert (Hlt : Z.quot (Z.of_nat (length data)) pace < Z.of_nat (length data))
    by (apply Z.quot_lt; lia).
  assert (Hmul : Z.quot (Z.of_nat (length data)) pace * pace <= Z.of_nat (length data))
    by (rewrite Z.mul_comm; apply Z.mul_quot_le; lia).
  unfold new_vector.
  destruct (Z.quot (Z.of_nat (length data)) pace <? 0) eqn:Hneg;
    [apply Z.ltb_lt in Hneg; lia|].
  simpl. rewrite Nat2Z.id.
  pose proof (undersample_loop_faults data pace
                (Z.to_nat (Z.quot (Z.of_nat (length data)) pace)) Hpace
                ltac:(lia) (length data) 0%nat
                (replicate (Z.to_nat (Z.quot (Z.of_nat (length data)) pace)) 0%float)
                (length_replicate _ _) ltac:(lia) ltac:(lia) ltac:(lia)) as H.
  change (Z.of_nat 0) with 0 in H. change (0 * pace) with 0 in H.
  rewrite H. reflexivity.
Qed.

Lemma map_nth_take (data : vec) :
  forall q, (q <= length data)%nat ->
    map (fun k => nth k data 0%float) (seq 0 q) = take q data.
Proof.
  induction data as [|x l IH]; intros [|q] Hq; simpl in *; try reflexivity; try lia.
  f_equal. rewrite <- seq_shift, map_map. apply IH. lia.
Qed.

(** While the index stays below the size [q] of the result, the iterations
    copy [data[j]] to [result[j]] and advance the unused [j] by [pace]. *)
Lemma undersample_loop_prefix (data : vec) (pace : Z) (q : nat) :
  1 <= pace ->
  Z.of_nat q * pace <= INT_MAX ->
  (q <= length data)%nat ->
  forall (n i : nat) (res : vec),
    length res = q -> (i + n <= q)%nat ->
    for_loop n (Z.of_nat i) (WaveletBPMDetector.undersample_step data pace)
      (res, Z.of_nat i * pace) =
    Ok (fold_left (fun r j => <[j := nth j data 0%float]> r) (seq i n) res,
        Z.of_nat (i + n) * pace).
Proof.
  intros Hpace Hq Hlen n. induction n as [|n IH]; intros i res Hres Hn.
  - simpl. now rewrite Nat.add_0_r.
  - simpl. unfold WaveletBPMDetector.undersample_step at 1. simpl.
    rewrite (load_Ok data i _ (lookup_nth data i ltac:(lia))). simpl.
    rewrite store_Ok by lia. simpl.
    assert (Hstep : (Z.of_nat i + 1) * pace <= Z.of_nat q * pace)
      by (apply Z.mul_le_mono_nonneg_r; lia).
    assert (Hmin : INT_MIN <= 0) by (vm_compute; discriminate).
    assert (Hnonneg : 0 <= Z.of_nat i * pace) by (apply Z.mul_nonneg_nonneg; lia).
    rewrite int_add_Ok by (clear - Hq Hstep Hmin Hnonneg Hpace; lia). simpl.
    replace (Z.of_nat i + 1) with (Z.of_nat (Datatypes.S i)) by lia.
    replace (Z.of_nat i * pace + pace) with (Z.of_nat (Datatypes.S i) * pace)
      by (rewrite Nat2Z.inj_succ; ring).
    clear Hstep Hnonneg Hmin Hq.
    rewrite IH by (rewrite ?length_insert; lia).
    do 3 f_equal. lia.
Qed.

(** C10: the claim that every store of [undersample] is in bounds fails on
    the code.  For every non-empty input and every pace of at least 2, the
    result has [size = length / pace] elements, fewer than the input; the
    first [size] iterations fill it with the first [size] samples; the next
    iteration stores [data[size]] at index [size], outside the result. *)
Theorem undersample_store_out_of_bounds (data : vec) (pace : Z) :
  data <> [] ->
  2 <= pace ->
  Z.of_nat (length data) <= INT_MAX ->
  let size := Z.to_nat (Z.quot (Z.of_nat (length data)) pace) in
  (size < length data)%nat /\
  for_loop size 0 (WaveletBPMDetector.undersample_step data pace)
    (replicate size 0%float, 0) = Ok (take size data, Z.of_nat size * pace) /\
  (exists x, load data (Z.of_nat size) = Ok x /\
             store (take size data) (Z.of_nat size) x = Err OutOfBounds) /\
  WaveletBPMDetector.undersample data pace = Err OutOfBounds.
Proof.
  intros Hne Hpace Hlen size.
  assert (Hpos : 0 < Z.of_nat (length data)) by (destruct data; [congruence|simpl; lia]).
  assert (Hq : 0 <= Z.quot (Z.of_nat (length data)) pace) by (apply Z.quot_pos; lia).
  assert (Hlt : Z.quot (Z.of_nat (length data)) pace < Z.of_nat (length data))
    by (apply Z.quot_lt; lia).
  assert (Hmul : Z.quot (Z.of_nat (length data)) pace * pace <= Z.of_nat (length data))
    by (rewrite Z.mul_comm; apply Z.mul_quot_le; lia).
  assert (Hsize : (size < length data)%nat) by (unfold size; lia).
  split; [exact Hsize|]. split; [|split].
  - pose proof (undersample_loop_prefix data pace size ltac:(lia)
                  ltac:(unfold size; rewrite Z2Nat.id by lia; lia) ltac:(lia)
                  size 0%nat (replicate size 0%float)
                  (length_replicate _ _) ltac:(lia)) as H.
    change (Z.of_nat 0) with 0 in H. change (0 * pace) with 0 in H.
    rewrite H. simpl. f_equal. f_equal.
    pose proof (fold_lags (fun k _ => nth k data 0%float) size []) as Hfold.
    simpl in Hfold. rewrite Hfold. apply map_nth_take. lia.
  - destruct (lookup_lt_is_Some_2 data size Hsize) as [x Hx].
    exists x. split; [now apply load_Ok|].
    apply store_out_of_bounds. rewrite length_take. lia.
  - now apply undersample_nonempty_faults.
Qed.

Lemma undersample_store_out_of_bounds_witness :
  [7; 8]%float <> [] /\ 2 <= 2 /\ Z.of_nat (length [7; 8]%float) <= INT_MAX /\
  for_loop 1 0 (WaveletBPMDetector.undersample_step [7; 8]%float 2) ([0%float], 0)
    = Ok ([7%float], 2) /\
  WaveletBPMDetector.undersample [7; 8]%float 2 = Err OutOfBounds.
Proof.
  assert (H1 : [7; 8]%float <> []) by discriminate.
  assert (H2 : 2 <= 2) by lia.
  assert (H3 : Z.of_nat (length [7; 8]%float) <= INT_MAX) by (vm_compute; discriminate).
  pose proof (undersample_store_out_of_bounds [7; 8]%float 2 H1 H2 H3) as H.
  exact (conj H1 (conj H2 (conj H3
           (conj (proj1 (proj2 H)) (proj2 (proj2 (proj2 H))))))).
Defined.

(** ** [normalize] *)

(** C2: the sum of [normalize] is accumulated in an [int] seeded with the
    integer 0, so every partial sum is truncated.  On [0.5, 0.5] both partial
    sums truncate to 0, the mean subtracted is 0 and the output is the input,
    whose mean is 0.5 and not 0; on [1.5, 2.5] the sum is 3 instead of 4 and
    the output [0, 1] has mean 0.5. *)
Theorem normalize_truncates_accumulation :
  WaveletBPMDetector.normalize [0.5; 0.5]%float = Ok [0.5; 0.5]%float /\
  Spec.arithmeticMean [0.5; 0.5]%float = 0.5%float /\
  WaveletBPMDetector.normalize [1.5; 2.5]%float = Ok [0; 1]%float /\
  Spec.arithmeticMean [0; 1]%float = 0.5%float.
Proof. repeat split; vm_compute; reflexivity. Qed.

(** ** [detectPeak] *)

Lemma find_eq_range (data : vec) (target : float) :
  forall i k, WaveletBPMDetector.find_eq data i target = Some k ->
              i <= k < i + Z.of_nat (length data).
Proof.
  induction data as [|x rest IH]; simpl; intros i k H; [discriminate|].
  destruct (PrimFloat.eqb x target).
  - injection H as <-. lia.
  - apply IH in H. lia.
Qed.

Lemma detectPeak_range (data : vec) :
  -1 <= WaveletBPMDetector.detectPeak data < Z.max 0 (Z.of_nat (length data)).
Proof.
  unfold WaveletBPMDetector.detectPeak.
  destruct (WaveletBPMDetector.find_eq data 0 _) as [k|] eqn:H1.
  - apply find_eq_range in H1. lia.
  - destruct (WaveletBPMDetector.find_eq data 0 (- _)) as [k|] eqn:H2.
    + apply find_eq_range in H2. lia.
    + destruct data; simpl; lia.
Qed.

Lemma peak_max_silence (n : nat) :
  WaveletBPMDetector.peak_max (replicate n 0%float) = DBL_MIN.
Proof.
  unfold WaveletBPMDetector.peak_max.
  induction n as [|n IH]; simpl; [reflexivity|exact IH].
Qed.

Lemma find_eq_silence (target : float) :
  PrimFloat.eqb 0 target = false ->
  forall n i, WaveletBPMDetector.find_eq (replicate n 0%float) i target = None.
Proof.
  intros H n. induction n as [|n IH]; simpl; intros i; [reflexivity|].
  rewrite H. apply IH.
Qed.

Lemma detectPeak_silence (n : nat) :
  WaveletBPMDetector.detectPeak (replicate n 0%float) = -1.
Proof.
  unfold WaveletBPMDetector.detectPeak.
  rewrite peak_max_silence.
  rewrite !find_eq_silence by reflexivity. reflexivity.
Qed.

(** C3: the two examples of the claim hold on the code, but the maximum is
    seeded with [DBL_MIN], the smallest positive normal double, instead of a
    value below every absolute value: on a silent range (all zeros, of any
    length) [m] is [DBL_MIN], no element equals [m] or [-m], and the code
    returns -1 where the claim has [m = 0] and the index 0. *)
Theorem detectPeak_examples_and_silence :
  WaveletBPMDetector.detectPeak [2; -5; 5; 1]%float = 2 /\
  WaveletBPMDetector.detectPeak [2; -5; -5; 1]%float = 1 /\
  WaveletBPMDetector.peak_max [0; 0; 0; 0]%float = DBL_MIN /\
  forall n, WaveletBPMDetector.detectPeak (replicate n 0%float) = -1.
Proof.
  split; [vm_compute; reflexivity|].
  split; [vm_compute; reflexivity|].
  split; [vm_compute; reflexivity|].
  exact detectPeak_silence.
Qed.

(** ** [correlate] *)

Section Correlate.

Variable data : vec.
Hypothesis data_small : Z.of_nat (length data) <= 2 ^ 30.

Local Abbreviation n := (length data).

Lemma correlate_term_pure (k i : nat) (correlation : vec) :
  length correlation = n -> (k < n)%nat -> (i < n)%nat ->
  WaveletBPMDetector.correlate_term data (Z.of_nat n) (Z.of_nat k) (Z.of_nat i)
    correlation = Ok (term_pure data k i correlation) /\
  length (term_pure data k i correlation) = n.
Proof.
  intros Hlen Hk Hi.
  unfold WaveletBPMDetector.correlate_term, term_pure, term_acc.
  assert (Hmax : Z.of_nat k + Z.of_nat i <= INT_MAX).
  { change INT_MAX with (2 ^ 30 + 2 ^ 30 - 1). lia. }
  rewrite int_add_Ok by (change INT_MIN with (- 2 ^ 31); lia).
  simpl.
  destruct (i + k <? n)%nat eqn:Hik.
  - apply Nat.ltb_lt in Hik.
    destruct (Z.of_nat k + Z.of_nat i <? Z.of_nat n) eqn:Hz;
      [|apply Z.ltb_ge in Hz; lia].
    assert (Hkc : (k < length correlation)%nat) by lia.
    rewrite (load_Ok correlation k _ (lookup_nth _ _ Hkc)). simpl.
    rewrite (load_Ok data i _ (lookup_nth _ _ Hi)). simpl.
    replace (Z.of_nat k + Z.of_nat i) with (Z.of_nat (i + k)) by lia.
    rewrite (load_Ok data (i + k) _ (lookup_nth _ _ Hik)). simpl.
    rewrite store_Ok by lia.
    rewrite length_insert. auto.
  - apply Nat.ltb_ge in Hik.
    destruct (Z.of_nat k + Z.of_nat i <? Z.of_nat n) eqn:Hz;
      [apply Z.ltb_lt in Hz; lia|].
    auto.
Qed.

(** The inner loop only touches element [k], folding the terms into it. *)
Lemma fold_term_pure (k : nat) (l : list nat) :
  forall correlation, (k < length correlation)%nat ->
    fold_left (fun c i => term_pure data k i c) l correlation =
    <[k := fold_left (fun c i => term_acc data k i c) l (nth k correlation 0%float)]>
      correlation.
Proof.
  induction l as [|i l IH]; intros correlation Hk; simpl.
  - symmetry. apply list_insert_id. now apply lookup_nth.
  - assert (Hcase :
      term_pure data k i correlation =
        <[k := term_acc data k i (nth k correlation 0%float)]> correlation \/
      term_pure data k i correlation = correlation /\
      forall c, term_acc data k i c = c).
    { unfold term_pure, term_acc.
      destruct (i + k <? n)%nat; [left|right]; auto. }
    destruct Hcase as [Hp|[Hp Ha]].
    + rewrite Hp, IH by (rewrite length_insert; lia).
      rewrite list_insert_insert_eq.
      f_equal. f_equal.
      erewrite nth_lookup_Some; [reflexivity|].
      now apply list_lookup_insert_eq.
    + rewrite Hp, Ha. now apply IH.
Qed.

(** The guarded fold over all of [0 .. n) is the sum of the products for
    [i + k < n]. *)
Lemma fold_term_acc_guard (k : nat) (c : float) (i m : nat) :
  (n <= i + k)%nat ->
  fold_left (fun c i => term_acc data k i c) (seq i m) c = c.
Proof.
  revert i c. induction m as [|m IH]; intros i c Hi; simpl; [reflexivity|].
  replace (term_acc data k i c) with c; [apply IH; lia|].
  unfold term_acc.
  destruct (i + k <? n)%nat eqn:Hik; [apply Nat.ltb_lt in Hik; lia|reflexivity].
Qed.

Lemma fold_term_acc_products (k : nat) (c : float) (i m : nat) :
  (i + m + k <= n)%nat ->
  fold_left (fun c i => term_acc data k i c) (seq i m) c =
  fold_left PrimFloat.add
    (map (fun i => (nth i data 0 * nth (i + k) data 0)%float) (seq i m)) c.
Proof.
  revert i c. induction m as [|m IH]; intros i c Hi; simpl; [reflexivity|].
  replace (term_acc data k i c) with (c + nth i data 0 * nth (i + k) data 0)%float;
    [apply IH; lia|].
  unfold term_acc.
  destruct (i + k <? n)%nat eqn:Hik; [reflexivity|apply Nat.ltb_ge in Hik; lia].
Qed.

Lemma fold_term_acc_sum (k : nat) :
  (k < n)%nat ->
  fold_left (fun c i => term_acc data k i c) (seq 0 n) 0%float =
  Spec.floatSum (Spec.lagProducts data k).
Proof.
  intros Hk.
  replace n with ((n - k) + k)%nat at 1 by lia.
  rewrite seq_app, fold_left_app.
  rewrite fold_term_acc_guard by lia.
  rewrite fold_term_acc_products by lia.
  reflexivity.
Qed.

Lemma correlate_lag_pure (k : nat) (correlation : vec) :
  length correlation = n -> (k < n)%nat ->
  WaveletBPMDetector.correlate_lag data (Z.of_nat n) (Z.of_nat k) correlation =
    Ok (<[k := fold_left (fun c i => term_acc data k i c) (seq 0 n)
                 (nth k correlation 0%float)]> correlation).
Proof.
  intros Hlen Hk. unfold WaveletBPMDetector.correlate_lag.
  rewrite Nat2Z.id.
  destruct (for_loop_fold (fun c : vec => length c = n) (term_pure data k)
              (WaveletBPMDetector.correlate_term data (Z.of_nat n) (Z.of_nat k)) n)
    with (n := n) (i := 0%nat) (s := correlation) as [Hloop _].
  - intros j s Hs Hj. now apply correlate_term_pure.
  - assumption.
  - lia.
  - change (Z.of_nat 0) with 0 in Hloop. rewrite Hloop.
    now rewrite fold_term_pure by lia.
Qed.

Lemma correlate_autocorrelation_small :
  WaveletBPMDetector.correlate data = Ok (Spec.autocorrelation data).
Proof.
  unfold WaveletBPMDetector.correlate.
  rewrite int_of_size_small
    by (change INT_MAX with (2 ^ 30 + 2 ^ 30 - 1); lia).
  unfold new_vector.
  destruct (Z.of_nat (length data) <? 0) eqn:Hneg; [apply Z.ltb_lt in Hneg; lia|].
  simpl. rewrite Nat2Z.id.
  destruct (for_loop_fold (fun c : vec => length c = n)
              (fun k c => <[k := fold_left (fun c i => term_acc data k i c) (seq 0 n)
                                   (nth k c 0%float)]> c)
              (WaveletBPMDetector.correlate_lag data (Z.of_nat n)) n)
    with (n := n) (i := 0%nat) (s := replicate n 0%float) as [Hloop _].
  - intros j s Hs Hj. split; [now apply correlate_lag_pure|].
    now rewrite length_insert.
  - apply length_replicate.
  - lia.
  - change (Z.of_nat 0) with 0 in Hloop. rewrite Hloop. f_equal.
    pose proof (fold_lags
                  (fun k c => fold_left (fun c i => term_acc data k i c) (seq 0 n) c)
                  n []) as H.
    simpl in H. rewrite H.
    unfold Spec.autocorrelation.
    apply map_ext_in. intros k Hk. apply in_seq in Hk.
    apply fold_term_acc_sum. lia.
Qed.

End Correlate.

Lemma floatSum_zeros (l : vec) :
  Forall isZero l -> Spec.floatSum l = 0%float.
Proof.
  unfold Spec.floatSum. induction 1 as [|x l [->| ->] _ IH]; simpl; auto.
Qed.

Lemma isZero_mul (x y : float) : isZero x -> isZero y -> isZero (x * y)%float.
Proof.
  intros [->| ->] [->| ->]; vm_compute; auto.
Qed.

Lemma isZero_nth (l : vec) (i : nat) : Forall isZero l -> isZero (nth i l 0%float).
Proof.
  intros H. revert i. induction H as [|x l Hx _ IH]; intros [|i]; simpl; auto;
    now left.
Qed.

Lemma map_constant {A B : Type} (f : A -> B) (c : B) (l : list A) :
  (forall a, In a l -> f a = c) -> map f l = replicate (length l) c.
Proof.
  induction l as [|a l IH]; simpl; intros H; [reflexivity|].
  rewrite H by auto. f_equal. apply IH. auto.
Qed.

Lemma autocorrelation_zeros (data : vec) :
  Forall isZero data -> Spec.autocorrelation data = replicate (length data) 0%float.
Proof.
  intros H. unfold Spec.autocorrelation.
  rewrite (map_constant _ 0%float).
  - now rewrite length_seq.
  - intros k _. apply floatSum_zeros. unfold Spec.lagProducts.
    apply Forall_forall. intros p Hp.
    apply list_elem_of_In, in_map_iff in Hp as (i & <- & _).
    apply isZero_mul; now apply isZero_nth.
Qed.

(** C4: for every input of at most 2^30 samples (so that the [int] index
    [k + i] cannot overflow) [correlate] returns a sequence of the same
    length whose element [k] is the sum, in ascending [i], of the products
    [x[i] * x[i+k]] with [i + k < n]; an input of zeros (of either sign)
    yields zeros. *)
Theorem correlate_is_autocorrelation (data : vec) :
  Z.of_nat (length data) <= 2 ^ 30 ->
  WaveletBPMDetector.correlate data = Ok (Spec.autocorrelation data) /\
  length (Spec.autocorrelation data) = length data /\
  (forall k, (k < length data)%nat ->
     nth k (Spec.autocorrelation data) 0%float =
     Spec.floatSum (Spec.lagProducts data k)) /\
  (Forall isZero data ->
     Spec.autocorrelation data = replicate (length data) 0%float).
Proof.
  intros Hsmall. split; [now apply correlate_autocorrelation_small|].
  split; [unfold Spec.autocorrelation; now rewrite length_map, length_seq|].
  split; [|apply autocorrelation_zeros].
  intros k Hk. unfold Spec.autocorrelation.
  rewrite (nth_indep _ 0%float (Spec.floatSum (Spec.lagProducts data 0)))
    by (now rewrite length_map, length_seq).
  rewrite (map_nth (fun k => Spec.floatSum (Spec.lagProducts data k))).
  now rewrite seq_nth.
Qed.

Lemma correlate_is_autocorrelation_witness :
  Z.of_nat (length [1; 0; 0; 0]%float) <= 2 ^ 30 /\
  WaveletBPMDetector.correlate [1; 0; 0; 0]%float = Ok [1; 0; 0; 0]%float /\
  WaveletBPMDetector.correlate [0; 0; 0]%float = Ok [0; 0; 0]%float.
Proof.
  assert (H4 : Z.of_nat (length [1; 0; 0; 0]%float) <= 2 ^ 30) by (vm_compute; discriminate).
  assert (H3 : Z.of_nat (length [0; 0; 0]%float) <= 2 ^ 30) by (vm_compute; discriminate).
  exact (conj H4
          (conj (proj1 (correlate_is_autocorrelation [1; 0; 0; 0]%float H4))
                (proj1 (correlate_is_autocorrelation [0; 0; 0]%float H3)))).
Defined.

(** ** The composite envelope *)

Lemma for_loop_S {S : Type} (n : nat) (i : Z) (body : Z -> S -> result S) (s : S) :
  for_loop (Datatypes.S n) i body s = bind (body i s) (for_loop n (i + 1) body).
Proof. reflexivity. Qed.

Lemma abs_length (data : vec) : length (WaveletBPMDetector.abs data) = length data.
Proof. apply length_map. Qed.

Lemma normalize_length (data r : vec) :
  WaveletBPMDetector.normalize data = Ok r -> length r = length data.
Proof.
  unfold WaveletBPMDetector.normalize. intros H.
  bind_inv H as sum Hsum. injection H as <-. apply length_map.
Qed.

Lemma add_length (data plus r : vec) :
  WaveletBPMDetector.add data plus = Ok r -> length r = length data.
Proof.
  unfold WaveletBPMDetector.add. intros H.
  apply (for_loop_invariant (fun v : vec => length v = length data)) in H;
    [assumption| |reflexivity].
  intros i s s' Hs Hb. unfold WaveletBPMDetector.add_step in Hb.
  bind_inv Hb as d Hd. bind_inv Hb as q Hq.
  apply store_length in Hb. congruence.
Qed.

(** An iteration of the level loop after the first keeps the length of
    [dCSum]. *)
Lemma envelope_step_length (decomp : list WaveletBPMDetector.decomposition)
    (q : nat) (i : Z) (s s' : vec * Z) :
  1 <= i -> length (fst s) = q ->
  WaveletBPMDetector.envelope_step decomp i s = Ok s' -> length (fst s') = q.
Proof.
  intros Hi Hs H. unfold WaveletBPMDetector.envelope_step in H.
  bind_inv H as d Hd. bind_inv H as dC Hu. bind_inv H as dC' Hn.
  bind_inv H as dCSum Hsum. injection H as <-. simpl.
  destruct (i =? 0) eqn:Hi0; [apply Z.eqb_eq in Hi0; lia|].
  apply add_length in Hsum. congruence.
Qed.

(** The first iteration replaces [dCSum] by the level-0 envelope. *)
Lemma envelope_step_first (decomp : list WaveletBPMDetector.decomposition)
    (d0 : WaveletBPMDetector.decomposition) (s s' : vec * Z) :
  WaveletBPMDetector.level decomp 0 = Ok d0 ->
  WaveletBPMDetector.envelope_step decomp 0 s = Ok s' ->
  exists dC, WaveletBPMDetector.undersample (snd d0) (snd s) = Ok dC /\
             length (fst s') = length dC.
Proof.
  intros Hd0 H. unfold WaveletBPMDetector.envelope_step in H.
  rewrite Hd0 in H. simpl in H.
  bind_inv H as dC Hu. bind_inv H as dC' Hn. injection H as <-. simpl.
  exists dC. split; [assumption|].
  apply normalize_length in Hn. now rewrite Hn, abs_length.
Qed.

(** For any depth of at least one level and any pace, the composite envelope
    has the length of the level-0 envelope. *)
Lemma envelopeSum_length_level0 (decomp : list WaveletBPMDetector.decomposition)
    (levels pace : Z) (maxDecimation : float)
    (d0 : WaveletBPMDetector.decomposition) (dCSum : vec) :
  1 <= levels ->
  WaveletBPMDetector.level decomp 0 = Ok d0 ->
  WaveletBPMDetector.envelopeSum decomp levels pace maxDecimation = Ok dCSum ->
  exists dC, WaveletBPMDetector.undersample (snd d0) pace = Ok dC /\
             length dCSum = length dC.
Proof.
  intros Hlevels Hd0 H. unfold WaveletBPMDetector.envelopeSum in H.
  bind_inv H as minLength Hmin. bind_inv H as dCSum0 Hnew.
  bind_inv H as st Hloop. bind_inv H as last Hlast. bind_inv H as aC HaC.
  apply add_length in H.
  destruct (Z.to_nat levels) as [|n] eqn:Hn; [lia|].
  rewrite for_loop_S in Hloop. bind_inv Hloop as s1 Hfirst.
  destruct (envelope_step_first _ _ _ _ Hd0 Hfirst) as (dC & Hu & Hlen1).
  apply (for_loop_invariant_from 1 (fun s : vec * Z => length (fst s) = length dC))
    in Hloop; [|apply envelope_step_length|lia|assumption].
  exists dC. split; [exact Hu|congruence].
Qed.

(** ** The peak lag and the window estimate *)

Lemma slice_Ok (v t : vec) (first last : Z) :
  slice v first last = Ok t ->
  0 <= first <= last /\ last <= Z.of_nat (length v) /\
  Z.of_nat (length t) = last - first.
Proof.
  unfold slice.
  destruct (last <? first) eqn:H1; [discriminate|].
  destruct (0 <=? first) eqn:H0; [|discriminate].
  destruct (last <=? Z.of_nat (length v)) eqn:H2; [|discriminate].
  simpl. intros [= <-].
  apply Z.ltb_ge in H1. apply Z.leb_le in H0, H2.
  rewrite length_take, length_drop. lia.
Qed.

(** The lag divided into 60 lies between [minIndex - 1], reached when no
    peak is found, and [maxIndex - 1]. *)
Lemma peakLag_range (dCSum : vec) (minIndex maxIndex realLocation : Z) :
  WaveletBPMDetector.peakLag dCSum minIndex maxIndex = Ok realLocation ->
  0 <= minIndex <= maxIndex /\ minIndex - 1 <= realLocation < maxIndex.
Proof.
  unfold WaveletBPMDetector.peakLag. intros H.
  bind_inv H as correlated Hc. bind_inv H as correlatedTmp Hs.
  apply slice_Ok in Hs as (Hmin & Hmax & Hlen).
  apply int_add_inv in H as [-> _].
  pose proof (detectPeak_range correlatedTmp). lia.
Qed.

(** ** Doubles: the magnitude of products and quotients

    [FloatAxioms] specifies the operations on doubles through the rounding
    function [binary_round_aux] of [SpecFloat].  The lemmas of this section
    follow the magnitude of a positive operand through a rounding: a normal
    operand (53 digits) stays normal, at the same or the next power of two,
    unless it overflows; an operand below [2^K] stays below [2^(K+1)]; the
    sign is kept.  They give the sign of the window estimate, the lag
    bounds of a practical sample rate and the exact reference length. *)

(** *** Binary digits *)

Lemma digits2_bounds (p : positive) :
  2 ^ (Z.pos (digits2_pos p) - 1) <= Z.pos p < 2 ^ Z.pos (digits2_pos p).
Proof.
  induction p as [p IH|p IH|]; simpl digits2_pos.
  - rewrite Pos2Z.inj_succ.
    replace (Z.succ (Z.pos (digits2_pos p)) - 1)
      with (Z.succ (Z.pos (digits2_pos p) - 1)) by lia.
    rewrite !Z.pow_succ_r by lia. lia.
  - rewrite Pos2Z.inj_succ.
    replace (Z.succ (Z.pos (digits2_pos p)) - 1)
      with (Z.succ (Z.pos (digits2_pos p) - 1)) by lia.
    rewrite !Z.pow_succ_r by lia. lia.
  - simpl. lia.
Qed.

(** A number in [2^a .. 2^b) has more than [a] and at most [b] digits. *)
Lemma digits2_between (p : positive) (a b : Z) :
  2 ^ a <= Z.pos p < 2 ^ b -> a + 1 <= Z.pos (digits2_pos p) <= b.
Proof.
  intros [Hlo Hhi]. pose proof (digits2_bounds p) as [Dlo Dhi]. split.
  - destruct (Z_lt_le_dec a (Z.pos (digits2_pos p))) as [|Hge]; [lia|]. exfalso.
    assert (2 ^ Z.pos (digits2_pos p) <= 2 ^ a) by (apply Z.pow_le_mono_r; lia).
    lia.
  - destruct (Z_lt_le_dec b (Z.pos (digits2_pos p))) as [Hlt|]; [|lia]. exfalso.
    destruct (Z_lt_le_dec b 0) as [Hneg|Hnonneg].
    + rewrite Z.pow_neg_r in Hhi by lia. lia.
    + assert (2 ^ b <= 2 ^ (Z.pos (digits2_pos p) - 1))
        by (apply Z.pow_le_mono_r; lia).
      lia.
Qed.

Lemma digits2_unique (p : positive) (k : Z) :
  2 ^ (k - 1) <= Z.pos p < 2 ^ k -> Z.pos (digits2_pos p) = k.
Proof. intros H. apply digits2_between in H. lia. Qed.

Lemma Zdigits2_le (m k : Z) : 0 <= k -> 0 <= m < 2 ^ k -> Zdigits2 m <= k.
Proof.
  intros Hk [H0 Hm]. destruct m as [|p|p]; simpl; try lia.
  assert (H1 : 2 ^ 0 <= Z.pos p < 2 ^ k) by (simpl; lia).
  apply digits2_between in H1. lia.
Qed.

(** *** The shifts of the rounding *)

Lemma shr_1_m (mrs : shr_record) :
  0 <= shr_m mrs -> shr_m (shr_1 mrs) = Z.div2 (shr_m mrs).
Proof.
  destruct mrs as [m r s]. simpl.
  destruct m as [|[p|p|]|p]; simpl; try reflexivity; lia.
Qed.

Lemma iter_pos_shr (p : positive) :
  forall mrs, 0 <= shr_m mrs ->
    shr_m (SpecFloat.iter_pos shr_1 p mrs) = Z.shiftr (shr_m mrs) (Z.pos p).
Proof.
  induction p as [p IH|p IH|]; intros mrs Hm; simpl SpecFloat.iter_pos.
  - assert (H1 : 0 <= shr_m (shr_1 mrs))
      by (rewrite shr_1_m by assumption; apply Z.div2_nonneg; assumption).
    assert (H2 : 0 <= shr_m (SpecFloat.iter_pos shr_1 p (shr_1 mrs)))
      by (rewrite IH by assumption; apply Z.shiftr_nonneg; assumption).
    rewrite IH, IH, shr_1_m, Z.div2_spec by assumption.
    rewrite !Z.shiftr_shiftr by lia. f_equal. lia.
  - assert (H2 : 0 <= shr_m (SpecFloat.iter_pos shr_1 p mrs))
      by (rewrite IH by assumption; apply Z.shiftr_nonneg; assumption).
    rewrite IH, IH by assumption.
    rewrite !Z.shiftr_shiftr by lia. f_equal. lia.
  - rewrite shr_1_m by assumption. apply Z.div2_spec.
Qed.

Lemma shr_m_of_loc (m : Z) (l : location) : shr_m (shr_record_of_loc m l) = m.
Proof. destruct l as [|[| |]]; reflexivity. Qed.

Lemma round_nearest_even_bounds (m : Z) (l : location) :
  m <= round_nearest_even m l <= m + 1.
Proof.
  unfold round_nearest_even. destruct l as [|[| |]]; try lia.
  destruct (Z.even m); lia.
Qed.

Lemma fexp_normal (mu : Z) : -1021 <= mu -> fexp prec emax mu = mu - 53.
Proof. unfold fexp, SpecFloat.emin, prec, emax. lia. Qed.

(** The shift cuts a mantissa of at least 53 digits, above the subnormal
    range, to 53 digits. *)
Lemma shr_fexp_normal (m : positive) (e : Z) (l : location) (d : Z) :
  Z.pos (digits2_pos m) = d -> 53 <= d -> -1021 <= d + e ->
  exists mrs, shr_fexp prec emax (Z.pos m) e l = (mrs, d + e - 53) /\
              2 ^ 52 <= shr_m mrs < 2 ^ 53.
Proof.
  intros Hd H53 Hmu. unfold shr_fexp. simpl Zdigits2.
  rewrite Hd, fexp_normal by assumption.
  replace (d + e - 53 - e) with (d - 53) by lia.
  pose proof (digits2_bounds m) as Hb. rewrite Hd in Hb.
  unfold shr. destruct (d - 53) as [|n|n] eqn:Hn; try lia.
  - exists (shr_record_of_loc (Z.pos m) l). split; [f_equal; lia|].
    rewrite shr_m_of_loc. replace d with 53 in Hb by lia. exact Hb.
  - exists (SpecFloat.iter_pos shr_1 n (shr_record_of_loc (Z.pos m) l)).
    split; [f_equal; lia|].
    rewrite iter_pos_shr by (rewrite shr_m_of_loc; lia).
    rewrite shr_m_of_loc, Z.shiftr_div_pow2 by lia.
    rewrite <- Hn.
    assert (Hp : 2 ^ (d - 1) = 2 ^ 52 * 2 ^ (d - 53))
      by (rewrite <- Z.pow_add_r by lia; f_equal; lia).
    assert (Hq : 2 ^ d = 2 ^ 53 * 2 ^ (d - 53))
      by (rewrite <- Z.pow_add_r by lia; f_equal; lia).
    assert (Hpos : 0 < 2 ^ (d - 53)) by (apply Z.pow_pos_nonneg; lia).
    split.
    + apply Z.div_le_lower_bound; [assumption|]. lia.
    + apply Z.div_lt_upper_bound; [assumption|]. lia.
Qed.

(** The shift keeps a mantissa below [2^K] below [2^K]. *)
Lemma shr_fexp_fits (K m e : Z) (l : location) :
  -1074 <= K -> fits K m e ->
  exists mrs e1, shr_fexp prec emax m e l = (mrs, e1) /\ fits K (shr_m mrs) e1.
Proof.
  intros HK [He Hm]. unfold shr_fexp, shr.
  pose proof (Zdigits2_le m (K - e) ltac:(lia) Hm) as Hd.
  assert (Hf : fexp prec emax (Zdigits2 m + e) <= K)
    by (unfold fexp, SpecFloat.emin, prec, emax; lia).
  destruct (fexp prec emax (Zdigits2 m + e) - e) as [|n|n] eqn:Hn.
  - eexists _, _. split; [reflexivity|]. rewrite shr_m_of_loc. split; assumption.
  - eexists _, _. split; [reflexivity|].
    rewrite iter_pos_shr by (rewrite shr_m_of_loc; lia).
    rewrite shr_m_of_loc, Z.shiftr_div_pow2 by lia.
    assert (Hpos : 0 < 2 ^ Z.pos n) by (apply Z.pow_pos_nonneg; lia).
    split; [lia|]. split; [apply Z.div_pos; lia|].
    apply Z.div_lt_upper_bound; [assumption|].
    rewrite <- Z.pow_add_r by lia.
    replace (Z.pos n + (K - (e + Z.pos n))) with (K - e) by lia. lia.
  - eexists _, _. split; [reflexivity|]. rewrite shr_m_of_loc. split; assumption.
Qed.

(** *** Rounding *)

(** Rounding keeps the sign. *)
Lemma binary_round_aux_signed (s : bool) (m e : Z) (l : location) :
  signed s (binary_round_aux prec emax s m e l).
Proof.
  unfold binary_round_aux.
  destruct (shr_fexp prec emax m e l) as [mrs e1].
  destruct (shr_fexp prec emax _ e1 loc_Exact) as [mrs2 e2].
  destruct (shr_m mrs2); [reflexivity| |exact I].
  destruct (e2 <=? emax - prec); reflexivity.
Qed.

(** An operand below [2^K] rounds to a zero or to a finite double below
    [2^(K+1)]. *)
Lemma binary_round_aux_fits (s : bool) (m e : Z) (l : location) (K : Z) :
  -1074 <= K <= 900 -> fits K m e ->
  small s (K + 1) (binary_round_aux prec emax s m e l).
Proof.
  intros HK Hfit. unfold small, binary_round_aux.
  destruct (shr_fexp_fits K m e l ltac:(lia) Hfit) as (mrs & e1 & -> & He1 & Hm1).
  pose proof (round_nearest_even_bounds (shr_m mrs) (loc_of_shr_record mrs)) as Hr.
  set (m2 := round_nearest_even (shr_m mrs) (loc_of_shr_record mrs)) in *.
  assert (Hfit2 : fits (K + 1) m2 e1).
  { split; [lia|]. split; [lia|].
    replace (K + 1 - e1) with (Z.succ (K - e1)) by lia.
    rewrite Z.pow_succ_r by lia. lia. }
  destruct (shr_fexp_fits (K + 1) m2 e1 loc_Exact ltac:(lia) Hfit2)
    as (mrs2 & e2 & -> & He2 & Hm3).
  destruct (shr_m mrs2) as [|p|p] eqn:Hp; [left; reflexivity| |lia].
  right. replace (e2 <=? emax - prec) with true
    by (symmetry; apply Z.leb_le; unfold emax, prec; lia).
  exists p, e2. split; [reflexivity|]. split; assumption.
Qed.

(** A mantissa of [d >= 53] digits above the subnormal range rounds to a
    53-digit mantissa of the same or the next magnitude; the result is
    finite when its exponent fits and infinite otherwise. *)
Lemma binary_round_aux_normal_cases (s : bool) (m : positive) (e : Z)
    (l : location) (d : Z) :
  Z.pos (digits2_pos m) = d -> 53 <= d -> -1021 <= d + e ->
  exists m' e',
    2 ^ 52 <= Z.pos m' < 2 ^ 53 /\ d + e <= 53 + e' <= d + e + 1 /\
    binary_round_aux prec emax s (Z.pos m) e l =
    if e' <=? emax - prec then S754_finite s m' e' else S754_infinity s.
Proof.
  intros Hd H53 Hmu. unfold binary_round_aux.
  destruct (shr_fexp_normal m e l d Hd H53 Hmu) as (mrs & -> & Hm1).
  pose proof (round_nearest_even_bounds (shr_m mrs) (loc_of_shr_record mrs)) as Hr.
  set (m2 := round_nearest_even (shr_m mrs) (loc_of_shr_record mrs)) in *.
  destruct m2 as [|p2|p2] eqn:Hm2; try lia.
  assert (Hp2 : 2 ^ 52 <= Z.pos p2 < 2 ^ 54) by (simpl; lia).
  apply digits2_between in Hp2.
  destruct (shr_fexp_normal p2 (d + e - 53) loc_Exact _ eq_refl
              ltac:(lia) ltac:(lia)) as (mrs2 & -> & Hm3).
  destruct (shr_m mrs2) as [|p3|p3] eqn:Hp3; try lia.
  exists p3, (Z.pos (digits2_pos p2) + (d + e - 53) - 53).
  split; [assumption|]. split; [lia|reflexivity].
Qed.

Lemma binary_round_aux_normal (s : bool) (m : positive) (e : Z) (l : location)
    (d : Z) :
  Z.pos (digits2_pos m) = d -> 53 <= d -> -1021 <= d + e <= 1022 ->
  exists m' e', binary_round_aux prec emax s (Z.pos m) e l = S754_finite s m' e' /\
    2 ^ 52 <= Z.pos m' < 2 ^ 53 /\ d + e <= 53 + e' <= d + e + 1.
Proof.
  intros Hd H53 Hmu.
  destruct (binary_round_aux_normal_cases s m e l d Hd H53 ltac:(lia))
    as (m' & e' & Hm' & He' & ->).
  exists m', e'. split; [|auto].
  replace (e' <=? emax - prec) with true
    by (symmetry; apply Z.leb_le; unfold emax, prec; lia).
  reflexivity.
Qed.

(** *** Products and quotients *)

Lemma SFmul_small (sx sy : bool) (mx my : positive) (ex ey Kx Ky : Z) :
  fits Kx (Z.pos mx) ex -> fits Ky (Z.pos my) ey -> -1074 <= Kx + Ky <= 900 ->
  small (xorb sx sy) (Kx + Ky + 1)
    (SF64mul (S754_finite sx mx ex) (S754_finite sy my ey)).
Proof.
  intros [Hex Hmx] [Hey Hmy] HK. unfold SF64mul, SFmul.
  apply binary_round_aux_fits; [assumption|].
  split; [lia|]. rewrite Pos2Z.inj_mul. split; [lia|].
  replace (Kx + Ky - (ex + ey)) with ((Kx - ex) + (Ky - ey)) by lia.
  rewrite Z.pow_add_r by lia.
  apply Z.mul_lt_mono_nonneg; lia.
Qed.

(** Division of a double below [2^Kx] by a normal double of exponent
    [ey]. *)
Lemma SFdiv_small (sx sy : bool) (mx my : positive) (ex ey Kx : Z) :
  fits Kx (Z.pos mx) ex -> 2 ^ 52 <= Z.pos my < 2 ^ 53 ->
  -1074 <= Kx - (53 + ey) + 1 <= 900 ->
  small (xorb sx sy) (Kx - (53 + ey) + 2)
    (SF64div (S754_finite sx mx ex) (S754_finite sy my ey)).
Proof.
  intros [Hex Hmx] Hmy HK. unfold SF64div, SFdiv, SFdiv_core_binary.
  pose proof (Zdigits2_le (Z.pos mx) (Kx - ex) ltac:(lia) Hmx) as Hd1.
  change (Zdigits2 (Z.pos my)) with (Z.pos (digits2_pos my)).
  rewrite (digits2_unique my 53) by (simpl Z.sub; lia).
  set (d1 := Zdigits2 (Z.pos mx)) in *.
  set (e' := Z.min (fexp prec emax (d1 + ex - (53 + ey))) (ex - ey)).
  assert (He' : e' <= ex - ey /\ e' <= Kx - (53 + ey) + 1).
  { unfold e', fexp, SpecFloat.emin, prec, emax. lia. }
  set (m' := match ex - ey - e' with
             | 0 => Z.pos mx
             | Z.pos _ => Z.shiftl (Z.pos mx) (ex - ey - e')
             | Z.neg _ => 0
             end).
  assert (Hm' : m' = Z.pos mx * 2 ^ (ex - ey - e')).
  { unfold m'. destruct (ex - ey - e') as [|s|s] eqn:Hs; try lia.
    now rewrite Z.shiftl_mul_pow2 by lia. }
  pose proof (Z_div_mod m' (Z.pos my) ltac:(lia)) as Hdm.
  destruct (Z.div_eucl m' (Z.pos my)) as [q r]. destruct Hdm as [Heq Hr].
  replace (Kx - (53 + ey) + 2) with ((Kx - (53 + ey) + 1) + 1) by lia.
  apply binary_round_aux_fits; [assumption|].
  assert (Hs : 0 <= ex - ey - e') by lia.
  assert (Hpow : 0 < 2 ^ (ex - ey - e')) by (apply Z.pow_pos_nonneg; lia).
  assert (Hm'0 : 0 <= m') by (rewrite Hm'; apply Z.mul_nonneg_nonneg; lia).
  assert (Hq0 : 0 <= q).
  { destruct (Z_lt_le_dec q 0) as [Hneg|]; [|assumption]. exfalso.
    assert (Z.pos my * q <= Z.pos my * (-1))
      by (apply Z.mul_le_mono_nonneg_l; lia).
    lia. }
  split; [lia|]. split; [exact Hq0|].
  destruct (Z_lt_le_dec q (2 ^ (Kx - (53 + ey) + 1 - e'))) as [|Hge];
    [assumption|]. exfalso.
  assert (Hb : m' < 2 ^ (Kx - ex) * 2 ^ (ex - ey - e'))
    by (rewrite Hm'; apply Z.mul_lt_mono_pos_r; lia).
  rewrite <- Z.pow_add_r in Hb by lia.
  assert (Hc : 2 ^ 52 * 2 ^ (Kx - (53 + ey) + 1 - e') <= Z.pos my * q)
    by (apply Z.mul_le_mono_nonneg; lia).
  rewrite <- Z.pow_add_r in Hc by lia.
  replace (52 + (Kx - (53 + ey) + 1 - e')) with (Kx - ex + (ex - ey - e')) in Hc
    by lia.
  lia.
Qed.

(** *** Conversions and comparisons *)

Lemma iter_xO_pow (p k : positive) :
  Z.pos (Pos.iter xO p k) = Z.pos p * 2 ^ Z.pos k.
Proof.
  induction k as [|k IH] using Pos.peano_ind.
  - simpl. lia.
  - rewrite Pos.iter_succ, Pos2Z.inj_xO, IH, Pos2Z.inj_succ, Z.pow_succ_r by lia.
    lia.
Qed.

(** The conversion of a positive [int] is exact and normal. *)
Lemma binary_normalize_int (p : positive) :
  Z.pos p < 2 ^ 31 ->
  normalPos (binary_normalize prec emax (Z.pos p) 0 false) 1 32.
Proof.
  intros Hp. unfold binary_normalize, binary_round.
  assert (Hd : 2 ^ 0 <= Z.pos p < 2 ^ 31) by (simpl; lia).
  apply digits2_between in Hd.
  pose proof (digits2_bounds p) as Hb.
  set (d := Z.pos (digits2_pos p)) in *.
  rewrite Z.add_0_r, fexp_normal by lia.
  unfold shl_align. rewrite Z.sub_0_r.
  destruct (d - 53) as [|k|k] eqn:Hk; try lia.
  assert (HM : 2 ^ 52 <= Z.pos (Pos.iter xO p k) < 2 ^ 53).
  { rewrite iter_xO_pow.
    assert (Hk' : Z.pos k = 53 - d) by lia. rewrite Hk'.
    assert (H52 : 2 ^ 52 = 2 ^ (d - 1) * 2 ^ (53 - d))
      by (rewrite <- Z.pow_add_r by lia; f_equal; lia).
    assert (H53 : 2 ^ 53 = 2 ^ d * 2 ^ (53 - d))
      by (rewrite <- Z.pow_add_r by lia; f_equal; lia).
    assert (Hpos : 0 < 2 ^ (53 - d)) by (apply Z.pow_pos_nonneg; lia).
    rewrite H52, H53.
    split; [apply Z.mul_le_mono_nonneg_r; lia|apply Z.mul_lt_mono_pos_r; lia]. }
  assert (HD : Z.pos (digits2_pos (Pos.iter xO p k)) = 53)
    by (apply digits2_unique; simpl Z.sub; lia).
  destruct (binary_round_aux_normal false (Pos.iter xO p k) (Z.neg k) loc_Exact
              53 HD ltac:(lia) ltac:(lia))
    as (m' & e' & -> & Hm' & He').
  exists m', e'. repeat split; lia.
Qed.

Lemma of_int_normalPos (L : Z) :
  1 <= L < 2 ^ 31 ->
  normalPos (Prim2SF (of_uint63 (of_Z L))) 1 32.
Proof.
  intros HL. rewrite of_uint63_spec, of_Z_spec.
  rewrite Z.mod_small by (change wB with (2 ^ 63); lia).
  destruct L as [|p|p]; try lia. apply binary_normalize_int. lia.
Qed.

(** A mantissa below 1 truncates to 0. *)
Lemma shiftl_small (m : positive) (e K : Z) :
  fits K (Z.pos m) e -> K <= 0 -> Z.shiftl (Z.pos m) e = 0.
Proof.
  intros [He Hm] HK. rewrite Z.shiftl_div_pow2 by lia.
  apply Z.div_small. split; [lia|].
  assert (2 ^ (K - e) <= 2 ^ (- e)) by (apply Z.pow_le_mono_r; lia). lia.
Qed.

(** ** Windows too short for the decomposition *)

Lemma supportsHalvings_spec (k n : nat) :
  Daubechies8.supportsHalvings n (Datatypes.S k) = (2 ^ Datatypes.S k <=? n)%nat.
Proof.
  revert n. induction k as [|k IH]; intros n.
  - change (Daubechies8.supportsHalvings n 1)
      with (if Nat.eqb (Nat.div n 2) 0 then false else true).
    change (2 ^ 1)%nat with 2%nat.
    pose proof (Nat.div_mod_eq n 2) as Hdm.
    pose proof (Nat.mod_upper_bound n 2 ltac:(discriminate)) as Hm.
    destruct (Nat.eqb_spec (Nat.div n 2) 0) as [H|H];
      destruct (Nat.leb_spec 2 n); try reflexivity; lia.
  - change (Daubechies8.supportsHalvings n (Datatypes.S (Datatypes.S k)))
      with (if Nat.eqb (Nat.div n 2) 0 then false
            else Daubechies8.supportsHalvings (Nat.div n 2) (Datatypes.S k)).
    rewrite IH.
    assert (Hpow : (2 ^ Datatypes.S (Datatypes.S k) = 2 * 2 ^ Datatypes.S k)%nat)
      by reflexivity.
    assert (Hpos : (0 < 2 ^ Datatypes.S k)%nat) by (apply Nat.neq_0_lt_0, Nat.pow_nonzero; lia).
    rewrite Hpow.
    pose proof (Nat.div_mod_eq n 2) as Hdm.
    pose proof (Nat.mod_upper_bound n 2 ltac:(discriminate)) as Hm.
    destruct (Nat.eqb_spec (Nat.div n 2) 0) as [H|H];
      destruct (Nat.leb_spec (2 ^ Datatypes.S k) (Nat.div n 2));
      destruct (Nat.leb_spec (2 * 2 ^ Datatypes.S k) n); try reflexivity; lia.
Qed.

Lemma decompose_short (lowPass highPass : vec -> vec) (samples : vec) :
  (length samples < 16)%nat ->
  Daubechies8.decompose lowPass highPass samples 4 = Err InsufficientData.
Proof.
  intros H. unfold Daubechies8.decompose.
  change (Z.to_nat 4) with 4%nat. rewrite supportsHalvings_spec.
  destruct (Nat.leb_spec (2 ^ 4) (length samples)) as [Hle|_]; [|reflexivity].
  change (2 ^ 4)%nat with 16%nat in Hle. lia.
Qed.

(** C7: with the decomposer of the specification, a window of fewer than 16
    samples (one that cannot be halved 4 times without becoming empty) makes
    [computeWindowBpm] fail with [InsufficientData], for every sample rate
    whose lag bounds are representable as [int]. *)
Theorem computeWindowBpm_insufficient_data (lowPass highPass : vec -> vec)
    (sampleRate : float) (range : Z * Z) (data : vec) :
  WaveletBPMDetector.lagRange sampleRate 8 = Ok range ->
  Daubechies8.supportsHalvings (length data) 4 = false ->
  (length data < 16)%nat /\
  WaveletBPMDetector.computeWindowBpm (Daubechies8.decompose lowPass highPass)
    sampleRate data = Err InsufficientData.
Proof.
  intros Hrange Hshort.
  assert (Hlen : (length data < 16)%nat).
  { rewrite supportsHalvings_spec in Hshort.
    apply Nat.leb_gt in Hshort. exact Hshort. }
  split; [exact Hlen|].
  unfold WaveletBPMDetector.computeWindowBpm.
  change (int_to_double (2 ^ (4 - 1))) with 8%float.
  rewrite Hrange. simpl.
  now rewrite decompose_short.
Qed.

Lemma computeWindowBpm_insufficient_data_witness :
  WaveletBPMDetector.lagRange 44100 8 = Ok (1503, 8268) /\
  Daubechies8.supportsHalvings (length [1; 2; 3]%float) 4 = false /\
  (length [1; 2; 3]%float < 16)%nat /\
  WaveletBPMDetector.computeWindowBpm
    (Daubechies8.decompose (fun a => a) (fun a => a)) 44100 [1; 2; 3]%float
  = Err InsufficientData.
Proof.
  assert (H1 : WaveletBPMDetector.lagRange 44100 8 = Ok (1503, 8268))
    by (vm_compute; reflexivity).
  assert (H2 : Daubechies8.supportsHalvings (length [1; 2; 3]%float) 4 = false)
    by reflexivity.
  exact (conj H1 (conj H2
           (computeWindowBpm_insufficient_data (fun a => a) (fun a => a)
              44100 (1503, 8268) [1; 2; 3]%float H1 H2))).
Defined.

(** ** The median of the history *)

(** [operator<] on doubles is asymmetric. *)
Lemma SFltb_asym (a b : spec_float) : SFltb a b = true -> SFltb b a = false.
Proof.
  unfold SFltb, SFcompare.
  destruct a as [sa|sa| |sa ma ea], b as [sb|sb| |sb mb eb];
    try destruct sa; try destruct sb; simpl; try discriminate; try reflexivity.
  - rewrite (Z.compare_antisym ea eb).
    destruct (ea ?= eb); simpl; try discriminate; try reflexivity.
    change (Pos.compare_cont Eq mb ma) with (mb ?= ma)%positive.
    change (Pos.compare_cont Eq ma mb) with (ma ?= mb)%positive.
    rewrite (Pos.compare_antisym ma mb).
    destruct (ma ?= mb)%positive; simpl; try discriminate; reflexivity.
  - rewrite (Z.compare_antisym ea eb).
    destruct (ea ?= eb); simpl; try discriminate; try reflexivity.
    change (Pos.compare_cont Eq mb ma) with (mb ?= ma)%positive.
    change (Pos.compare_cont Eq ma mb) with (ma ?= mb)%positive.
    rewrite (Pos.compare_antisym ma mb).
    destruct (ma ?= mb)%positive; simpl; try discriminate; reflexivity.
Qed.

Lemma ltb_asym (x y : float) : PrimFloat.ltb x y = true -> PrimFloat.ltb y x = false.
Proof. rewrite !FloatAxioms.ltb_spec. apply SFltb_asym. Qed.

Lemma insertSorted_perm (x : float) (l : vec) :
  Permutation (x :: l) (BpmEstimator.insertSorted x l).
Proof.
  induction l as [|y l IH]; simpl; [reflexivity|].
  destruct (PrimFloat.ltb x y); [reflexivity|].
  rewrite perm_swap. now apply perm_skip.
Qed.

Lemma insertSorted_sorted (x : float) (l : vec) :
  LocallySorted notGreater l -> LocallySorted notGreater (BpmEstimator.insertSorted x l).
Proof.
  induction 1 as [|y|y z l Hl IH Hyz]; simpl.
  - constructor.
  - destruct (PrimFloat.ltb x y) eqn:Hxy.
    + constructor; [constructor|]. now apply ltb_asym.
    + constructor; [constructor|]. exact Hxy.
  - destruct (PrimFloat.ltb x y) eqn:Hxy.
    + constructor; [now constructor|]. now apply ltb_asym.
    + simpl in IH. destruct (PrimFloat.ltb x z) eqn:Hxz.
      * constructor; [exact IH|exact Hxy].
      * constructor; [exact IH|exact Hyz].
Qed.

Lemma sortedCopy_perm (history : vec) :
  Permutation history (BpmEstimator.sortedCopy history).
Proof.
  induction history as [|x l IH]; simpl; [reflexivity|].
  rewrite <- insertSorted_perm. now apply perm_skip.
Qed.

Lemma sortedCopy_sorted (history : vec) :
  LocallySorted notGreater (BpmEstimator.sortedCopy history).
Proof.
  induction history as [|x l IH]; simpl; [constructor|].
  now apply insertSorted_sorted.
Qed.

(** C8: on a non-empty history [currentEstimate] returns the median: the
    sorted copy is a permutation of the history in which no element is
    greater than its successor; for an odd count the result is its middle
    element and for an even count the arithmetic mean of its two central
    elements. *)
Theorem currentEstimate_is_median (history : vec) :
  history <> [] ->
  Permutation history (BpmEstimator.sortedCopy history) /\
  LocallySorted notGreater (BpmEstimator.sortedCopy history) /\
  (Nat.odd (length history) = true ->
   BpmEstimator.currentEstimate history =
   Ok (nth (Nat.div (length history) 2) (BpmEstimator.sortedCopy history) 0%float)) /\
  (Nat.even (length history) = true ->
   BpmEstimator.currentEstimate history =
   Ok ((nth (Nat.div (length history) 2 - 1) (BpmEstimator.sortedCopy history) 0
        + nth (Nat.div (length history) 2) (BpmEstimator.sortedCopy history) 0) / 2)%float).
Proof.
  intros Hne.
  split; [apply sortedCopy_perm|]. split; [apply sortedCopy_sorted|].
  unfold BpmEstimator.currentEstimate.
  destruct history as [|x l]; [congruence|].
  change (Nat.eqb (length (x :: l)) 0) with false. cbv iota.
  split; intros Hpar.
  - now rewrite Hpar.
  - rewrite <- Nat.negb_even, Hpar. reflexivity.
Qed.

Lemma currentEstimate_is_median_witness :
  [80; 90; 100]%float <> [] /\ [80; 90; 100; 110]%float <> [] /\
  BpmEstimator.currentEstimate [80; 90; 100]%float = Ok 90%float /\
  BpmEstimator.currentEstimate [80; 90; 100; 110]%float = Ok 95%float.
Proof.
  assert (H3 : [80; 90; 100]%float <> []) by discriminate.
  assert (H4 : [80; 90; 100; 110]%float <> []) by discriminate.
  exact (conj H3 (conj H4
    (conj (proj1 (proj2 (proj2 (currentEstimate_is_median _ H3))) eq_refl)
          (proj2 (proj2 (proj2 (currentEstimate_is_median _ H4))) eq_refl)))).
Defined.

(** ** Capture set-up *)

(** C9, counterexample: when the device cannot be opened the constructor
    prints a message and calls [exit(EXIT_FAILURE)]; no error value reaches
    the caller. *)
Lemma audio_data_open_failure_exits :
  let lib := {| AudioData.snd_pcm_open := -2;
                AudioData.snd_pcm_hw_params := 0;
                AudioData.snd_pcm_prepare := 0;
                AudioData.snd_pcm_hw_params_get_format := AudioData.SND_PCM_FORMAT_S16_LE;
                AudioData.snd_pcm_hw_params_get_rate := 44100;
                AudioData.snd_pcm_hw_params_get_period_size := 256;
                AudioData.snd_pcm_hw_params_get_channels := 2;
                AudioData.snd_strerror := fun _ => "No such file or directory"%string |} in
  let initial := {| AudioData.format := -1; AudioData.rate := 0;
                    AudioData.frames := 0; AudioData.channels := 0 |} in
  AudioData.setupFails lib /\
  AudioData.audio_data lib initial =
    AudioData.Exit AudioData.EXIT_FAILURE
      ("error opening stream: No such file or directory" ++ AudioData.newline)%string /\
  AudioData.terminates (AudioData.audio_data lib initial).
Proof.
  simpl. split; [left; simpl; lia|]. split; [reflexivity|exact I].
Qed.

(** C9, amended: a negative result of one of the three calls the
    constructor checks, [snd_pcm_open], [snd_pcm_hw_params] and
    [snd_pcm_prepare], makes it print on [stderr] the message of the first
    of them that failed, with the text [snd_strerror] gives for its result,
    and terminate the process with [exit(EXIT_FAILURE)]: no object is
    constructed and no error value reaches the caller.  (The results of the
    other set-up calls, lines 19 to 38, are discarded by the constructor.) *)
Theorem audio_data_failure_exits (lib : AudioData.alsa) (initial : AudioData.members) :
  AudioData.setupFails lib ->
  exists (err : Z) (text : string),
    err < 0 /\
    (err = AudioData.snd_pcm_open lib /\
     text = ("error opening stream: "
             ++ AudioData.snd_strerror lib err ++ AudioData.newline)%string
     \/
     0 <= AudioData.snd_pcm_open lib /\
     err = AudioData.snd_pcm_hw_params lib /\
     text = ("unable to set hw parameters: "
             ++ AudioData.snd_strerror lib err ++ AudioData.newline)%string
     \/
     0 <= AudioData.snd_pcm_open lib /\
     0 <= AudioData.snd_pcm_hw_params lib /\
     err = AudioData.snd_pcm_prepare lib /\
     text = ("cannot prepare audio interface for use ("
             ++ AudioData.snd_strerror lib err ++ ")" ++ AudioData.newline)%string) /\
    AudioData.audio_data lib initial = AudioData.Exit AudioData.EXIT_FAILURE text /\
    forall object, AudioData.audio_data lib initial <> AudioData.Constructed object.
Proof.
  unfold AudioData.setupFails, AudioData.audio_data. intros H.
  destruct (AudioData.snd_pcm_open lib <? 0) eqn:Ho.
  { apply Z.ltb_lt in Ho. eexists _, _. split; [exact Ho|].
    split; [left; split; reflexivity|]. split; [reflexivity|discriminate]. }
  apply Z.ltb_ge in Ho.
  destruct (AudioData.snd_pcm_hw_params lib <? 0) eqn:Hp.
  { apply Z.ltb_lt in Hp. eexists _, _. split; [exact Hp|].
    split; [right; left; repeat split; first [assumption|reflexivity]|].
    split; [reflexivity|discriminate]. }
  apply Z.ltb_ge in Hp.
  destruct (AudioData.snd_pcm_prepare lib <? 0) eqn:Hr.
  { apply Z.ltb_lt in Hr. eexists _, _. split; [exact Hr|].
    split; [right; right; repeat split; first [assumption|reflexivity]|].
    split; [reflexivity|discriminate]. }
  apply Z.ltb_ge in Hr. lia.
Qed.

Lemma audio_data_failure_exits_witness :
  let lib := {| AudioData.snd_pcm_open := 0;
                AudioData.snd_pcm_hw_params := 0;
                AudioData.snd_pcm_prepare := -5;
                AudioData.snd_pcm_hw_params_get_format := AudioData.SND_PCM_FORMAT_S16_LE;
                AudioData.snd_pcm_hw_params_get_rate := 44100;
                AudioData.snd_pcm_hw_params_get_period_size := 256;
                AudioData.snd_pcm_hw_params_get_channels := 2;
                AudioData.snd_strerror := fun _ => "Input/output error"%string |} in
  let initial := {| AudioData.format := -1; AudioData.rate := 0;
                    AudioData.frames := 0; AudioData.channels := 0 |} in
  AudioData.setupFails lib /\
  AudioData.audio_data lib initial =
    AudioData.Exit AudioData.EXIT_FAILURE
      ("cannot prepare audio interface for use (Input/output error)"
       ++ AudioData.newline)%string /\
  exists (err : Z) (text : string),
    err < 0 /\
    AudioData.audio_data lib initial = AudioData.Exit AudioData.EXIT_FAILURE text.
Proof.
  intros lib initial.
  assert (H : AudioData.setupFails lib) by (right; right; simpl; lia).
  refine (conj H (conj eq_refl _)).
  destruct (audio_data_failure_exits lib initial H) as (err & text & Herr & _ & Hexit & _).
  exists err, text. exact (conj Herr Hexit).
Defined.

(** * Further properties of the code

    Edge and fault behaviour of the functions, the invariants they keep and
    the way the stages of [computeWindowBpm] compose, up to the whole
    function on the decomposition of a real window. *)

(** ** [undersample]: the inputs on which it returns *)

Lemma undersample_pace1 (data : vec) :
  Z.of_nat (length data) <= INT_MAX ->
  WaveletBPMDetector.undersample data 1 = Ok data.
Proof.
  intros Hlen. unfold WaveletBPMDetector.undersample.
  rewrite int_of_size_small by assumption.
  change (1 =? 0) with false. cbv iota. rewrite Z.quot_1_r.
  unfold new_vector.
  destruct (Z.of_nat (length data) <? 0) eqn:Hneg; [apply Z.ltb_lt in Hneg; lia|].
  simpl. rewrite Nat2Z.id.
  pose proof (undersample_loop_prefix data 1 (length data) ltac:(lia) ltac:(lia)
                ltac:(lia) (length data) 0%nat (replicate (length data) 0%float)
                (length_replicate _ _) ltac:(lia)) as H.
  change (Z.of_nat 0) with 0 in H. change (0 * 1) with 0 in H.
  rewrite H. simpl. f_equal.
  pose proof (fold_lags (fun k _ => nth k data 0%float) (length data) []) as Hfold.
  simpl in Hfold. rewrite Hfold, map_nth_take by lia. apply firstn_all.
Qed.

(** X1: for a pace of at least 1, [undersample] returns a vector exactly
    when the input is empty or the pace is 1, and the vector it returns is
    the input itself: no sample is ever dropped. *)
Theorem undersample_returns_iff (data r : vec) (pace : Z) :
  1 <= pace ->
  Z.of_nat (length data) <= INT_MAX ->
  WaveletBPMDetector.undersample data pace = Ok r <->
  (data = [] \/ pace = 1) /\ r = data.
Proof.
  intros Hpace Hlen. split.
  - intros H. destruct (Z.eq_dec pace 1) as [->|Hne].
    + rewrite undersample_pace1 in H by assumption. injection H as <-. auto.
    + destruct data as [|x l].
      * split; [now left|].
        apply undersample_length in H. simpl in H.
        rewrite int_of_size_small in H by assumption.
        rewrite Z.quot_0_l in H by lia. destruct r; [reflexivity|simpl in H; lia].
      * rewrite undersample_nonempty_faults in H by (try discriminate; lia).
        discriminate.
  - intros [[-> | ->] ->].
    + destruct pace as [|p|p]; try lia. reflexivity.
    + now apply undersample_pace1.
Qed.

Lemma undersample_returns_iff_witness :
  1 <= 1 /\ Z.of_nat (length [3; 4]%float) <= INT_MAX /\
  WaveletBPMDetector.undersample [3; 4]%float 1 = Ok [3; 4]%float.
Proof.
  assert (H1 : 1 <= 1) by lia.
  assert (H2 : Z.of_nat (length [3; 4]%float) <= INT_MAX) by (vm_compute; discriminate).
  exact (conj H1 (conj H2
    (proj2 (undersample_returns_iff [3; 4]%float [3; 4]%float 1 H1 H2)
       (conj (or_intror eq_refl) eq_refl)))).
Defined.

(** ** [abs] *)

Lemma SFabs_not_negative (x : spec_float) :
  SFltb (SFabs x) (S754_zero false) = false.
Proof. destruct x as [s|s| |s m e]; reflexivity. Qed.

Lemma SFabs_idempotent (x : spec_float) : SFabs (SFabs x) = SFabs x.
Proof. destruct x; reflexivity. Qed.

Lemma abs_not_negative (x : float) : PrimFloat.ltb (PrimFloat.abs x) 0 = false.
Proof.
  rewrite FloatAxioms.ltb_spec, abs_spec. apply SFabs_not_negative.
Qed.

Lemma abs_idempotent (x : float) : PrimFloat.abs (PrimFloat.abs x) = PrimFloat.abs x.
Proof.
  apply Prim2SF_inj. rewrite !abs_spec. apply SFabs_idempotent.
Qed.

(** X2: [abs] keeps the length of its input, none of the values it returns
    is below zero, and applying it twice is the same as applying it once. *)
Theorem abs_not_negative_idempotent (data : vec) :
  length (WaveletBPMDetector.abs data) = length data /\
  Forall (fun x => PrimFloat.ltb x 0 = false) (WaveletBPMDetector.abs data) /\
  WaveletBPMDetector.abs (WaveletBPMDetector.abs data) = WaveletBPMDetector.abs data.
Proof.
  unfold WaveletBPMDetector.abs. split; [apply length_map|]. split.
  - apply Forall_map, Forall_true. intros x. apply abs_not_negative.
  - rewrite map_map. apply map_ext. intros x. apply abs_idempotent.
Qed.

(** ** [add] *)

(** One iteration at index [length done]: [data] is [done ++ x :: rest]. *)
Lemma add_step_Ok (plus done rest pdone prest : vec) (x p : float) :
  plus = pdone ++ p :: prest -> length done = length pdone ->
  WaveletBPMDetector.add_step plus (Z.of_nat (length done)) (done ++ x :: rest) =
  Ok (done ++ (x + p)%float :: rest).
Proof.
  intros -> Hdone. unfold WaveletBPMDetector.add_step.
  rewrite (load_Ok (done ++ x :: rest) (length done) x)
    by (rewrite lookup_app_r, Nat.sub_diag by lia; reflexivity).
  cbn [bind].
  rewrite (load_Ok (pdone ++ p :: prest) (length done) p)
    by (rewrite Hdone, lookup_app_r, Nat.sub_diag by lia; reflexivity).
  cbn [bind].
  rewrite store_Ok by (rewrite length_app; simpl; lia).
  rewrite insert_app_r_alt, Nat.sub_diag by lia. reflexivity.
Qed.

Lemma add_step_faults (plus done rest : vec) (x : float) :
  length done = length plus ->
  WaveletBPMDetector.add_step plus (Z.of_nat (length done)) (done ++ x :: rest) =
  Err OutOfBounds.
Proof.
  intros Hdone. unfold WaveletBPMDetector.add_step.
  rewrite (load_Ok (done ++ x :: rest) (length done) x)
    by (rewrite lookup_app_r, Nat.sub_diag by lia; reflexivity).
  cbn [bind]. unfold load.
  destruct (Z.of_nat (length done) <? 0); [reflexivity|].
  rewrite Nat2Z.id, (lookup_ge_None_2 plus (length done)) by lia. reflexivity.
Qed.

Ltac add_next_iteration done x p rest :=
  rewrite (cons_middle (x + p)%float done rest),
          (app_assoc done [(x + p)%float] rest);
  replace (Z.of_nat (length done) + 1)
    with (Z.of_nat (length (done ++ [(x + p)%float])))
    by (rewrite length_app; simpl; lia).

Lemma add_loop (plus : vec) :
  forall (rest done pdone prest : vec),
    plus = pdone ++ prest -> length done = length pdone ->
    (length rest <= length prest)%nat ->
    for_loop (length rest) (Z.of_nat (length done))
      (WaveletBPMDetector.add_step plus) (done ++ rest) =
    Ok (done ++ zip_with PrimFloat.add rest prest).
Proof.
  induction rest as [|x rest IH]; intros done pdone prest Hplus Hdone Hlen.
  - reflexivity.
  - destruct prest as [|p prest]; [simpl in Hlen; lia|].
    cbn [length]. rewrite for_loop_S.
    rewrite (add_step_Ok plus done rest pdone prest x p Hplus Hdone). cbn [bind].
    add_next_iteration done x p rest.
    rewrite (IH (done ++ [(x + p)%float]) (pdone ++ [p]) prest).
    + rewrite <- app_assoc. reflexivity.
    + rewrite <- app_assoc. exact Hplus.
    + rewrite !length_app. simpl. lia.
    + simpl in Hlen. lia.
Qed.

Lemma add_loop_faults (plus : vec) :
  forall (rest done pdone prest : vec),
    plus = pdone ++ prest -> length done = length pdone ->
    (length prest < length rest)%nat ->
    for_loop (length rest) (Z.of_nat (length done))
      (WaveletBPMDetector.add_step plus) (done ++ rest) = Err OutOfBounds.
Proof.
  induction rest as [|x rest IH]; intros done pdone prest Hplus Hdone Hlen.
  - simpl in Hlen. lia.
  - cbn [length]. rewrite for_loop_S. destruct prest as [|p prest].
    + rewrite add_step_faults by (rewrite Hplus, app_nil_r; exact Hdone).
      reflexivity.
    + rewrite (add_step_Ok plus done rest pdone prest x p Hplus Hdone). cbn [bind].
      add_next_iteration done x p rest.
      apply (IH (done ++ [(x + p)%float]) (pdone ++ [p]) prest).
      * rewrite <- app_assoc. exact Hplus.
      * rewrite !length_app. simpl. lia.
      * simpl in Hlen. lia.
Qed.

(** X3: when [plus] has at least as many elements as [data], [add] returns
    the element-wise sums [data[i] + plus[i]] over the indices of [data];
    the result has the length of [data] and the further elements of [plus]
    are ignored. *)
Theorem add_elementwise (data plus : vec) :
  (length data <= length plus)%nat ->
  WaveletBPMDetector.add data plus = Ok (zip_with PrimFloat.add data plus) /\
  length (zip_with PrimFloat.add data plus) = length data /\
  forall i, (i < length data)%nat ->
    nth i (zip_with PrimFloat.add data plus) 0%float =
    (nth i data 0 + nth i plus 0)%float.
Proof.
  intros Hlen. split; [|split].
  - exact (add_loop plus data [] [] plus eq_refl eq_refl Hlen).
  - rewrite length_zip_with. lia.
  - revert plus Hlen. induction data as [|x l IH]; intros [|p plus] Hlen i Hi;
      simpl in *; try lia.
    destruct i as [|i]; [reflexivity|]. apply IH; lia.
Qed.

Lemma add_elementwise_witness :
  (length [1; 2]%float <= length [10; 20; 30]%float)%nat /\
  WaveletBPMDetector.add [1; 2]%float [10; 20; 30]%float = Ok [11; 22]%float.
Proof.
  assert (H : (length [1; 2]%float <= length [10; 20; 30]%float)%nat) by (simpl; lia).
  exact (conj H (proj1 (add_elementwise [1; 2]%float [10; 20; 30]%float H))).
Defined.

(** X4: when [plus] has fewer elements than [data], [add] reads [plus]
    past its end: the fault [OutOfBounds]. *)
Theorem add_shorter_operand_out_of_bounds (data plus : vec) :
  (length plus < length data)%nat ->
  WaveletBPMDetector.add data plus = Err OutOfBounds.
Proof.
  intros Hlen. exact (add_loop_faults plus data [] [] plus eq_refl eq_refl Hlen).
Qed.

Lemma add_shorter_operand_out_of_bounds_witness :
  (length [10%float] < length [1; 2]%float)%nat /\
  WaveletBPMDetector.add [1; 2]%float [10%float] = Err OutOfBounds.
Proof.
  assert (H : (length [10%float] < length [1; 2]%float)%nat) by (simpl; lia).
  exact (conj H (add_shorter_operand_out_of_bounds [1; 2]%float [10%float] H)).
Defined.

(** ** The order of doubles *)

Ltac sf_cases :=
  unfold SFltb, SFleb, SFeqb, SFcompare; simpl;
  repeat match goal with
         | |- context [Pos.compare_cont Eq ?a ?b] =>
             change (Pos.compare_cont Eq a b) with (Pos.compare a b)
         end;
  repeat match goal with
         | |- context [Z.compare ?a ?b] => destruct (Z.compare_spec a b)
         | |- context [Pos.compare ?a ?b] => destruct (Pos.compare_spec a b)
         end;
  simpl; try subst; try discriminate; try reflexivity; try lia; try tauto.

Lemma SFleb_SFltb_trans (a b c : spec_float) :
  SFleb a b = true -> SFltb b c = true -> SFltb a c = true.
Proof.
  destruct a as [sa|sa| |sa ma ea], b as [sb|sb| |sb mb eb],
           c as [sc|sc| |sc mc ec];
    try destruct sa; try destruct sb; try destruct sc; sf_cases.
Qed.

Lemma SFltb_SFleb_trans (a b c : spec_float) :
  SFltb a b = true -> SFleb b c = true -> SFltb a c = true.
Proof.
  destruct a as [sa|sa| |sa ma ea], b as [sb|sb| |sb mb eb],
           c as [sc|sc| |sc mc ec];
    try destruct sa; try destruct sb; try destruct sc; sf_cases.
Qed.

Lemma SFleb_trans (a b c : spec_float) :
  SFleb a b = true -> SFleb b c = true -> SFleb a c = true.
Proof.
  destruct a as [sa|sa| |sa ma ea], b as [sb|sb| |sb mb eb],
           c as [sc|sc| |sc mc ec];
    try destruct sa; try destruct sb; try destruct sc; sf_cases.
Qed.

Lemma SFltb_SFleb (a b : spec_float) : SFltb a b = true -> SFleb a b = true.
Proof.
  destruct a as [sa|sa| |sa ma ea], b as [sb|sb| |sb mb eb];
    try destruct sa; try destruct sb; sf_cases.
Qed.

Lemma SFltb_irrefl (a : spec_float) : SFltb a a = false.
Proof. destruct a as [sa|sa| |sa ma ea]; try destruct sa; sf_cases. Qed.

Lemma SFltb_SFleb_refl (a b : spec_float) :
  SFltb a b = true -> SFleb b b = true.
Proof.
  destruct a as [sa|sa| |sa ma ea], b as [sb|sb| |sb mb eb];
    try destruct sa; try destruct sb; sf_cases.
Qed.

(** A double equal by [==] to a positive [m] or to [-m] has the absolute
    value [m], and conversely. *)
Lemma SFeqb_SFabs (x m : spec_float) :
  SFltb (S754_zero false) m = true ->
  SFeqb x m = true \/ SFeqb x (SFopp m) = true -> SFabs x = m.
Proof.
  destruct x as [sx|sx| |sx mx ex], m as [sm|sm| |sm mm em];
    try destruct sx; try destruct sm; sf_cases;
    intros _ [H|H]; congruence.
Qed.

Lemma SFabs_SFeqb (x m : spec_float) :
  SFltb (S754_zero false) m = true -> SFabs x = m ->
  SFeqb x m = true \/ SFeqb x (SFopp m) = true.
Proof.
  intros Hm <-. revert Hm.
  destruct x as [sx|sx| |sx mx ex]; try destruct sx; sf_cases.
Qed.

Lemma SFleb_antisym (a b : spec_float) :
  SFltb (S754_zero false) a = true ->
  SFleb a b = true -> SFltb a b = false -> b = a.
Proof.
  destruct a as [sa|sa| |sa ma ea], b as [sb|sb| |sb mb eb];
    try destruct sa; try destruct sb; sf_cases.
Qed.

Lemma leb_ltb_trans (x y z : float) :
  PrimFloat.leb x y = true -> PrimFloat.ltb y z = true -> PrimFloat.ltb x z = true.
Proof. rewrite FloatAxioms.leb_spec, !FloatAxioms.ltb_spec. apply SFleb_SFltb_trans. Qed.

Lemma ltb_leb_trans (x y z : float) :
  PrimFloat.ltb x y = true -> PrimFloat.leb y z = true -> PrimFloat.ltb x z = true.
Proof. rewrite FloatAxioms.leb_spec, !FloatAxioms.ltb_spec. apply SFltb_SFleb_trans. Qed.

Lemma leb_trans (x y z : float) :
  PrimFloat.leb x y = true -> PrimFloat.leb y z = true -> PrimFloat.leb x z = true.
Proof. rewrite !FloatAxioms.leb_spec. apply SFleb_trans. Qed.

Lemma ltb_leb (x y : float) : PrimFloat.ltb x y = true -> PrimFloat.leb x y = true.
Proof. rewrite FloatAxioms.leb_spec, FloatAxioms.ltb_spec. apply SFltb_SFleb. Qed.

Lemma ltb_irrefl (x : float) : PrimFloat.ltb x x = false.
Proof. rewrite FloatAxioms.ltb_spec. apply SFltb_irrefl. Qed.

Lemma ltb_leb_refl (x y : float) : PrimFloat.ltb x y = true -> PrimFloat.leb y y = true.
Proof. rewrite FloatAxioms.leb_spec, FloatAxioms.ltb_spec. apply SFltb_SFleb_refl. Qed.

Lemma eqb_abs (x m : float) :
  PrimFloat.ltb 0 m = true ->
  PrimFloat.eqb x m = true \/ PrimFloat.eqb x (- m) = true -> PrimFloat.abs x = m.
Proof.
  rewrite FloatAxioms.ltb_spec, !FloatAxioms.eqb_spec, FloatAxioms.opp_spec. intros Hm H.
  apply Prim2SF_inj. rewrite FloatAxioms.abs_spec. now apply SFeqb_SFabs.
Qed.

Lemma abs_eqb (x m : float) :
  PrimFloat.ltb 0 m = true -> PrimFloat.abs x = m ->
  PrimFloat.eqb x m = true \/ PrimFloat.eqb x (- m) = true.
Proof.
  rewrite FloatAxioms.ltb_spec, !FloatAxioms.eqb_spec, FloatAxioms.opp_spec. intros Hm H.
  apply SFabs_SFeqb; [exact Hm|]. rewrite <- FloatAxioms.abs_spec. now f_equal.
Qed.

Lemma leb_antisym (a b : float) :
  PrimFloat.ltb 0 a = true ->
  PrimFloat.leb a b = true -> PrimFloat.ltb a b = false -> b = a.
Proof.
  rewrite FloatAxioms.leb_spec, !FloatAxioms.ltb_spec. intros H0 H1 H2.
  apply Prim2SF_inj. now apply SFleb_antisym.
Qed.

(** ** [detectPeak]: the maximum of the absolute values *)

(** The accumulation of the maximum from a seed that is not a NaN: the
    result is not below the seed, no absolute value exceeds it, and it is
    the seed or one of the absolute values. *)
Lemma peak_fold (data : vec) :
  forall acc, PrimFloat.leb acc acc = true ->
    let m := fold_left (fun max x => std_max max (PrimFloat.abs x)) data acc in
    PrimFloat.leb acc m = true /\
    Forall (fun x => PrimFloat.ltb m (PrimFloat.abs x) = false) data /\
    (m = acc \/ Exists (fun x => m = PrimFloat.abs x) data).
Proof.
  induction data as [|x l IH]; intros acc Hacc; cbn [fold_left].
  - split; [exact Hacc|]. split; [constructor|now left].
  - set (acc' := std_max acc (PrimFloat.abs x)).
    assert (Hstep : PrimFloat.leb acc acc' = true /\ PrimFloat.leb acc' acc' = true /\
                    PrimFloat.ltb acc' (PrimFloat.abs x) = false /\
                    (acc' = acc \/ acc' = PrimFloat.abs x)).
    { unfold acc', std_max. destruct (PrimFloat.ltb acc (PrimFloat.abs x)) eqn:Hlt.
      - split; [now apply ltb_leb|]. split; [now apply (ltb_leb_refl acc)|].
        split; [apply ltb_irrefl|now right].
      - auto. }
    destruct Hstep as (H1 & H2 & H3 & H4).
    destruct (IH acc' H2) as (I1 & I2 & I3). cbv zeta in I1, I2, I3.
    split; [exact (leb_trans _ _ _ H1 I1)|]. split.
    + constructor; [|exact I2].
      match goal with |- ?t = false => destruct t eqn:Hlt; [|reflexivity] end.
      rewrite (leb_ltb_trans _ _ _ I1 Hlt) in H3. discriminate.
    + destruct I3 as [I3|I3]; [|right; now apply Exists_cons_tl].
      rewrite I3. destruct H4 as [H4|H4]; [now left|].
      right. now apply Exists_cons_hd.
Qed.

Lemma peak_max_bounds (data : vec) :
  PrimFloat.leb DBL_MIN (WaveletBPMDetector.peak_max data) = true /\
  PrimFloat.ltb 0 (WaveletBPMDetector.peak_max data) = true /\
  Forall (fun x => PrimFloat.ltb (WaveletBPMDetector.peak_max data) (PrimFloat.abs x)
                   = false) data /\
  (WaveletBPMDetector.peak_max data = DBL_MIN \/
   Exists (fun x => WaveletBPMDetector.peak_max data = PrimFloat.abs x) data).
Proof.
  destruct (peak_fold data DBL_MIN eq_refl) as (H1 & H2 & H3).
  split; [exact H1|]. split; [|split; assumption].
  exact (ltb_leb_trans 0 DBL_MIN _ eq_refl H1).
Qed.

Lemma find_eq_None (data : vec) (target : float) :
  forall i, WaveletBPMDetector.find_eq data i target = None <->
            Forall (fun x => PrimFloat.eqb x target = false) data.
Proof.
  induction data as [|x l IH]; intros i; simpl.
  - split; [constructor|reflexivity].
  - destruct (PrimFloat.eqb x target) eqn:Hx.
    + split; [discriminate|]. intros H. inversion H. congruence.
    + rewrite IH. split; [now constructor|]. intros H. now inversion H.
Qed.

Lemma find_eq_Some (data : vec) (target : float) :
  forall i k, WaveletBPMDetector.find_eq data i target = Some k ->
    exists j, k = i + Z.of_nat j /\ (j < length data)%nat /\
      PrimFloat.eqb (nth j data 0%float) target = true /\
      forall j', (j' < j)%nat -> PrimFloat.eqb (nth j' data 0%float) target = false.
Proof.
  induction data as [|x l IH]; intros i k; simpl; [discriminate|].
  destruct (PrimFloat.eqb x target) eqn:Hx.
  - intros [= <-]. exists 0%nat. repeat split; [lia|lia|exact Hx|lia].
  - intros H. destruct (IH _ _ H) as (j & -> & Hj & He & Hb).
    exists (S j). repeat split; [lia|lia|exact He|].
    intros [|j'] Hj'; [exact Hx|]. apply Hb. lia.
Qed.

(** X5: when [detectPeak] returns an index [k], the element [data[k]] is the
    first one equal to the maximum [m] of the absolute values, or, when no
    element equals [m], the first one equal to [-m]. *)
Theorem detectPeak_first_match (data : vec) (k : nat) :
  WaveletBPMDetector.detectPeak data = Z.of_nat k ->
  let m := WaveletBPMDetector.peak_max data in
  (k < length data)%nat /\
  ((PrimFloat.eqb (nth k data 0%float) m = true /\
    forall j, (j < k)%nat -> PrimFloat.eqb (nth j data 0%float) m = false) \/
   (PrimFloat.eqb (nth k data 0%float) (- m) = true /\
    Forall (fun x => PrimFloat.eqb x m = false) data /\
    forall j, (j < k)%nat -> PrimFloat.eqb (nth j data 0%float) (- m) = false)).
Proof.
  intros H m. unfold WaveletBPMDetector.detectPeak in H. fold m in H. cbv zeta in H.
  destruct (WaveletBPMDetector.find_eq data 0 m) as [i|] eqn:Hpos.
  - subst i. apply find_eq_Some in Hpos as (j & Hk & Hj & He & Hb).
    assert (j = k) by lia. subst j. split; [exact Hj|]. left. auto.
  - apply find_eq_None in Hpos.
    destruct (WaveletBPMDetector.find_eq data 0 (- m)) as [i|] eqn:Hneg; [|lia].
    subst i. apply find_eq_Some in Hneg as (j & Hk & Hj & He & Hb).
    assert (j = k) by lia. subst j. split; [exact Hj|]. right. auto.
Qed.

Lemma detectPeak_first_match_witness :
  WaveletBPMDetector.detectPeak [2; -5; 5; 1]%float = Z.of_nat 2 /\
  (PrimFloat.eqb (nth 2 [2; -5; 5; 1]%float 0%float)
     (WaveletBPMDetector.peak_max [2; -5; 5; 1]%float) = true \/
   PrimFloat.eqb (nth 2 [2; -5; 5; 1]%float 0%float)
     (- WaveletBPMDetector.peak_max [2; -5; 5; 1]%float) = true).
Proof.
  assert (H : WaveletBPMDetector.detectPeak [2; -5; 5; 1]%float = Z.of_nat 2)
    by (vm_compute; reflexivity).
  refine (conj H _).
  destruct (proj2 (detectPeak_first_match [2; -5; 5; 1]%float 2 H)) as [[H1 _]|[H1 _]];
    [left|right]; exact H1.
Defined.

Lemma detectPeak_hit (data : vec) (k : nat) :
  WaveletBPMDetector.detectPeak data = Z.of_nat k ->
  PrimFloat.eqb (nth k data 0%float) (WaveletBPMDetector.peak_max data) = true \/
  PrimFloat.eqb (nth k data 0%float) (- WaveletBPMDetector.peak_max data) = true.
Proof.
  unfold WaveletBPMDetector.detectPeak. cbv zeta.
  destruct (WaveletBPMDetector.find_eq data 0 _) as [i|] eqn:Hpos.
  - intros ->. apply find_eq_Some in Hpos as (j & Hk & _ & He & _).
    assert (j = k) by lia. subst j. now left.
  - destruct (WaveletBPMDetector.find_eq data 0 (- _)) as [i|] eqn:Hneg; [|lia].
    intros ->. apply find_eq_Some in Hneg as (j & Hk & _ & He & _).
    assert (j = k) by lia. subst j. now right.
Qed.

Lemma detectPeak_abs_max (data : vec) (k : nat) :
  WaveletBPMDetector.detectPeak data = Z.of_nat k ->
  PrimFloat.abs (nth k data 0%float) = WaveletBPMDetector.peak_max data.
Proof.
  intros H. destruct (peak_max_bounds data) as (_ & Hpos & _).
  apply eqb_abs; [exact Hpos|]. exact (detectPeak_hit data k H).
Qed.

(** X6: the element at the index returned by [detectPeak] has the largest
    absolute value of the vector: its absolute value is the maximum [m], at
    least [DBL_MIN], and no element has a greater absolute value. *)
Theorem detectPeak_maximal (data : vec) (k : nat) :
  WaveletBPMDetector.detectPeak data = Z.of_nat k ->
  PrimFloat.abs (nth k data 0%float) = WaveletBPMDetector.peak_max data /\
  PrimFloat.leb DBL_MIN (PrimFloat.abs (nth k data 0%float)) = true /\
  Forall (fun x => PrimFloat.ltb (PrimFloat.abs (nth k data 0%float)) (PrimFloat.abs x)
                   = false) data.
Proof.
  intros H.
  destruct (peak_max_bounds data) as (Hmin & _ & Hub & _).
  rewrite (detectPeak_abs_max data k H). auto.
Qed.

Lemma detectPeak_maximal_witness :
  WaveletBPMDetector.detectPeak [2; -5; 5; 1]%float = Z.of_nat 2 /\
  PrimFloat.abs (nth 2 [2; -5; 5; 1]%float 0%float) =
  WaveletBPMDetector.peak_max [2; -5; 5; 1]%float.
Proof.
  assert (H : WaveletBPMDetector.detectPeak [2; -5; 5; 1]%float = Z.of_nat 2)
    by (vm_compute; reflexivity).
  exact (conj H (proj1 (detectPeak_maximal [2; -5; 5; 1]%float 2 H))).
Defined.

(** X7: [detectPeak] returns -1 exactly when no element reaches [DBL_MIN]
    in absolute value, that is when every element is a zero, a subnormal
    number or a NaN; on every other vector it returns an index. *)
Theorem detectPeak_none_iff (data : vec) :
  WaveletBPMDetector.detectPeak data = -1 <->
  Forall (fun x => PrimFloat.leb DBL_MIN (PrimFloat.abs x) = false) data.
Proof.
  destruct (peak_max_bounds data) as (Hmin & Hpos & Hub & Hatt).
  set (m := WaveletBPMDetector.peak_max data) in *.
  assert (Hnone : WaveletBPMDetector.detectPeak data = -1 <->
                  Forall (fun x => PrimFloat.eqb x m = false) data /\
                  Forall (fun x => PrimFloat.eqb x (- m) = false) data).
  { unfold WaveletBPMDetector.detectPeak. fold m. cbv zeta.
    rewrite <- !(find_eq_None data _ 0).
    destruct (WaveletBPMDetector.find_eq data 0 m) as [i|] eqn:Hp.
    - apply find_eq_range in Hp. split; [lia|intros [? _]; discriminate].
    - destruct (WaveletBPMDetector.find_eq data 0 (- m)) as [i|] eqn:Hn.
      + apply find_eq_range in Hn. split; [lia|intros [_ ?]; discriminate].
      + tauto. }
  rewrite Hnone. clear Hnone. rewrite !Forall_forall in *. split.
  - intros [Hp Hn] x Hx.
    assert (Hno : forall y, elem_of y data -> PrimFloat.abs y <> m).
    { intros y Hy Hay. destruct (abs_eqb y m Hpos Hay) as [He|He].
      - rewrite (Hp y Hy) in He. discriminate.
      - rewrite (Hn y Hy) in He. discriminate. }
    destruct Hatt as [Hatt|Hatt].
    + destruct (PrimFloat.leb DBL_MIN (PrimFloat.abs x)) eqn:Hle; [|reflexivity].
      exfalso. apply (Hno x Hx). rewrite Hatt.
      apply leb_antisym; [reflexivity|exact Hle|].
      rewrite <- Hatt. now apply Hub.
    + apply Exists_exists in Hatt as (y & Hy & Hay).
      exfalso. now apply (Hno y Hy).
  - intros Hsmall.
    assert (Hm : m = DBL_MIN).
    { destruct Hatt as [Hatt|Hatt]; [exact Hatt|].
      apply Exists_exists in Hatt as (y & Hy & Hay).
      rewrite Hay, (Hsmall y Hy) in Hmin. discriminate. }
    assert (Hno : forall y, elem_of y data -> PrimFloat.abs y <> m).
    { intros y Hy Hay. specialize (Hsmall y Hy). rewrite Hay, Hm in Hsmall.
      discriminate. }
    split; intros x Hx.
    + destruct (PrimFloat.eqb x m) eqn:He; [|reflexivity].
      exfalso. apply (Hno x Hx). apply eqb_abs; auto.
    + destruct (PrimFloat.eqb x (- m)) eqn:He; [|reflexivity].
      exfalso. apply (Hno x Hx). apply eqb_abs; auto.
Qed.

(** ** [normalize]: the accumulation in [int] *)

(** The mantissa of a valid double has at most 53 digits. *)
Lemma valid_mantissa (s : bool) (m : positive) (e : Z) :
  valid_binary (S754_finite s m e) = true -> Z.pos m < 2 ^ 53.
Proof.
  intros Hvalid. simpl in Hvalid. unfold bounded, canonical_mantissa in Hvalid.
  apply andb_true_iff in Hvalid as [Hcanon _]. apply Z.eqb_eq in Hcanon.
  unfold fexp, SpecFloat.emin, prec, emax in Hcanon.
  assert (Hd : Z.pos (digits2_pos m) <= 53) by lia.
  pose proof (digits2_bounds m) as [_ Hb].
  assert (2 ^ Z.pos (digits2_pos m) <= 2 ^ 53) by (apply Z.pow_le_mono_r; lia).
  lia.
Qed.

Lemma SFltb_finite (m1 m2 : positive) (e1 e2 : Z) :
  SFltb (S754_finite false m1 e1) (S754_finite false m2 e2) = true ->
  e1 < e2 \/ (e1 = e2 /\ Z.pos m1 < Z.pos m2).
Proof.
  unfold SFltb, SFcompare.
  change (Pos.compare_cont Eq m1 m2) with (Pos.compare m1 m2).
  destruct (Z.compare_spec e1 e2); try discriminate; [|now left].
  destruct (Pos.compare_spec m1 m2); try discriminate. right. split; [assumption|lia].
Qed.

(** A double below 1 in absolute value truncates to 0. *)
Lemma trunc_below_one (x : float) :
  PrimFloat.ltb (PrimFloat.abs x) 1 = true -> trunc_double x = Some 0.
Proof.
  rewrite FloatAxioms.ltb_spec, FloatAxioms.abs_spec. unfold trunc_double.
  pose proof (Prim2SF_valid x) as Hvalid.
  destruct (Prim2SF x) as [s|s| |s m e]; try discriminate; [reflexivity|].
  apply valid_mantissa in Hvalid.
  change (Prim2SF 1) with (S754_finite false 4503599627370496 (-52)).
  intros Hlt. apply SFltb_finite in Hlt.
  assert (Hfit : fits 0 (Z.pos m) e).
  { unfold fits. destruct Hlt as [He|[-> Hm]].
    - split; [lia|].
      assert (2 ^ 53 <= 2 ^ (0 - e)) by (apply Z.pow_le_mono_r; lia). lia.
    - split; [lia|]. exact (conj (Pos2Z.is_nonneg m) Hm). }
  rewrite (shiftl_small m e 0 Hfit) by lia. now destruct s.
Qed.

Lemma add_zero_l_trunc (x : float) :
  PrimFloat.ltb (PrimFloat.abs x) 1 = true -> trunc_double (0 + x) = Some 0.
Proof.
  intros Hx. pose proof (trunc_below_one x Hx) as Ht. revert Ht.
  unfold trunc_double. rewrite FloatAxioms.add_spec.
  change (Prim2SF 0) with (S754_zero false).
  destruct (Prim2SF x) as [s|s| |s m e]; try discriminate.
  - intros _. now destruct s.
  - auto.
Qed.

Lemma accumulate_below_one (data : vec) :
  Forall (fun x => PrimFloat.ltb (PrimFloat.abs x) 1 = true) data ->
  WaveletBPMDetector.accumulate_int data 0 = Ok 0.
Proof.
  induction 1 as [|x l Hx _ IH]; [reflexivity|].
  cbn [WaveletBPMDetector.accumulate_int].
  change (int_to_double 0) with 0%float.
  unfold double_to_int. rewrite (add_zero_l_trunc x Hx). exact IH.
Qed.

Lemma sub_zero_r (x : float) : (x - 0)%float = x.
Proof.
  apply Prim2SF_inj. rewrite FloatAxioms.sub_spec.
  change (Prim2SF 0) with (S754_zero false).
  destruct (Prim2SF x) as [s|s| |s m e]; try reflexivity. now destruct s.
Qed.

Lemma zero_div_size (n : nat) :
  1 <= Z.of_nat n <= INT_MAX -> (0 / size_to_double n)%float = 0%float.
Proof.
  intros Hn. apply Prim2SF_inj. rewrite FloatAxioms.div_spec.
  unfold size_to_double.
  destruct (of_int_normalPos (Z.of_nat n)) as (m & e & -> & _).
  { unfold INT_MAX in Hn. lia. }
  reflexivity.
Qed.

(** X8: a sequence all of whose values are below 1 in absolute value is
    returned unchanged by [normalize]: the running sum, converted to [int]
    after every addition, stays 0, so the value subtracted is 0. *)
Theorem normalize_below_one_unchanged (data : vec) :
  Forall (fun x => PrimFloat.ltb (PrimFloat.abs x) 1 = true) data ->
  Z.of_nat (length data) <= INT_MAX ->
  WaveletBPMDetector.normalize data = Ok data.
Proof.
  intros Hsmall Hlen. unfold WaveletBPMDetector.normalize.
  rewrite (accumulate_below_one data Hsmall). cbn [bind].
  change (int_to_double 0) with 0%float.
  destruct data as [|x l]; [reflexivity|].
  rewrite zero_div_size by (split; [simpl; lia|exact Hlen]).
  f_equal. rewrite <- (map_id (x :: l)) at 2. apply map_ext. intros y. apply sub_zero_r.
Qed.

Lemma normalize_below_one_unchanged_witness :
  Forall (fun x => PrimFloat.ltb (PrimFloat.abs x) 1 = true) [0.25; -0.75; 0.5]%float /\
  Z.of_nat (length [0.25; -0.75; 0.5]%float) <= INT_MAX /\
  WaveletBPMDetector.normalize [0.25; -0.75; 0.5]%float = Ok [0.25; -0.75; 0.5]%float.
Proof.
  assert (H1 : Forall (fun x => PrimFloat.ltb (PrimFloat.abs x) 1 = true)
                 [0.25; -0.75; 0.5]%float)
    by (repeat constructor).
  assert (H2 : Z.of_nat (length [0.25; -0.75; 0.5]%float) <= INT_MAX)
    by (vm_compute; discriminate).
  exact (conj H1 (conj H2 (normalize_below_one_unchanged _ H1 H2))).
Defined.

(** [(double)z] is a zero or a finite number. *)
Lemma int_to_double_finite (z : Z) :
  INT_MIN <= z <= INT_MAX ->
  match Prim2SF (int_to_double z) with
  | S754_zero _ | S754_finite _ _ _ => True
  | S754_infinity _ | S754_nan => False
  end.
Proof.
  unfold INT_MIN, INT_MAX, int_to_double. intros Hz.
  destruct (z <? 0) eqn:Hneg.
  - apply Z.ltb_lt in Hneg. rewrite FloatAxioms.opp_spec.
    destruct (Z.eq_dec z (- 2 ^ 31)) as [->|Hne]; [exact I|].
    destruct (of_int_normalPos (- z)) as (m & e & -> & _); [lia|exact I].
  - apply Z.ltb_ge in Hneg.
    destruct (Z.eq_dec z 0) as [->|Hne]; [exact I|].
    destruct (of_int_normalPos z) as (m & e & -> & _); [lia|exact I].
Qed.

Lemma accumulate_faults (data : vec) :
  forall init e, WaveletBPMDetector.accumulate_int data init = Err e ->
                 e = IntConversion.
Proof.
  induction data as [|x l IH]; intros init e; simpl; [discriminate|].
  destruct (double_to_int (int_to_double init + x)) as [acc|e'] eqn:Hacc; simpl.
  - apply IH.
  - intros [= <-]. unfold double_to_int in Hacc.
    destruct (trunc_double _) as [t|]; [destruct (in_int t)|]; congruence.
Qed.

Lemma accumulate_non_finite (data : vec) :
  Exists (fun x => x = nan \/ x = infinity \/ x = neg_infinity) data ->
  forall init, INT_MIN <= init <= INT_MAX ->
    WaveletBPMDetector.accumulate_int data init = Err IntConversion.
Proof.
  induction 1 as [x l Hx|x l _ IH]; intros init Hinit; simpl.
  - assert (Hnone : trunc_double (int_to_double init + x) = None).
    { unfold trunc_double. rewrite FloatAxioms.add_spec.
      pose proof (int_to_double_finite init Hinit) as Hfin.
      destruct (Prim2SF (int_to_double init)) as [s|s| |s m e]; try contradiction;
        destruct Hx as [-> | [-> | ->]]; reflexivity. }
    unfold double_to_int. rewrite Hnone. reflexivity.
  - destruct (double_to_int (int_to_double init + x)) as [acc|e] eqn:Hacc; simpl.
    + apply IH. now apply double_to_int_inv in Hacc.
    + f_equal. unfold double_to_int in Hacc.
      destruct (trunc_double _) as [t|]; [destruct (in_int t)|]; congruence.
Qed.

(** X9: [normalize] has one way to fail, the conversion of the running sum
    to [int]; it fails this way on every sequence that holds a NaN or an
    infinity. *)
Theorem normalize_non_finite_faults (data : vec) :
  (forall e, WaveletBPMDetector.normalize data = Err e -> e = IntConversion) /\
  (Exists (fun x => x = nan \/ x = infinity \/ x = neg_infinity) data ->
   WaveletBPMDetector.normalize data = Err IntConversion).
Proof.
  unfold WaveletBPMDetector.normalize. split.
  - intros e. destruct (WaveletBPMDetector.accumulate_int data 0) as [sum|e'] eqn:Hsum;
      simpl; [discriminate|].
    intros [= <-]. exact (accumulate_faults data 0 e' Hsum).
  - intros Hex. rewrite (accumulate_non_finite data Hex 0); [reflexivity|].
    unfold INT_MIN, INT_MAX. lia.
Qed.

Lemma normalize_non_finite_faults_witness :
  Exists (fun x => x = nan \/ x = infinity \/ x = neg_infinity) [1; infinity]%float /\
  WaveletBPMDetector.normalize [1; infinity]%float = Err IntConversion.
Proof.
  assert (H : Exists (fun x => x = nan \/ x = infinity \/ x = neg_infinity)
                [1; infinity]%float)
    by (apply Exists_cons_tl, Exists_cons_hd; right; left; reflexivity).
  exact (conj H (proj2 (normalize_non_finite_faults [1; infinity]%float) H)).
Defined.

(** ** [correlate]: the sign of the signal *)

Lemma SFmul_opp_opp (x y : spec_float) :
  SF64mul (SFopp x) (SFopp y) = SF64mul x y.
Proof.
  destruct x as [sx|sx| |sx mx ex], y as [sy|sy| |sy my ey];
    try destruct sx; try destruct sy; reflexivity.
Qed.

Lemma mul_opp_opp (x y : float) : (- x * - y)%float = (x * y)%float.
Proof.
  apply Prim2SF_inj. rewrite !FloatAxioms.mul_spec, !FloatAxioms.opp_spec.
  apply SFmul_opp_opp.
Qed.

Lemma autocorrelation_opp (data : vec) :
  Spec.autocorrelation (map PrimFloat.opp data) = Spec.autocorrelation data.
Proof.
  unfold Spec.autocorrelation, Spec.lagProducts. rewrite !length_map.
  apply map_ext_in. intros k Hk. f_equal.
  apply map_ext_in. intros i Hi. apply in_seq in Hk, Hi.
  rewrite !(nth_indep (map PrimFloat.opp data) 0%float (- 0)%float)
    by (rewrite length_map; lia).
  rewrite !map_nth. apply mul_opp_opp.
Qed.

(** X10: negating every sample leaves the result of [correlate] unchanged,
    bit for bit. *)
Theorem correlate_opp (data : vec) :
  Z.of_nat (length data) <= 2 ^ 30 ->
  WaveletBPMDetector.correlate (map PrimFloat.opp data) =
  WaveletBPMDetector.correlate data.
Proof.
  intros Hsmall.
  rewrite (correlate_autocorrelation_small data Hsmall).
  rewrite correlate_autocorrelation_small by (now rewrite length_map).
  f_equal. apply autocorrelation_opp.
Qed.

Lemma correlate_opp_witness :
  Z.of_nat (length [1; -2; 3]%float) <= 2 ^ 30 /\
  WaveletBPMDetector.correlate (map PrimFloat.opp [1; -2; 3]%float) =
  WaveletBPMDetector.correlate [1; -2; 3]%float.
Proof.
  assert (H : Z.of_nat (length [1; -2; 3]%float) <= 2 ^ 30) by (vm_compute; discriminate).
  exact (conj H (correlate_opp [1; -2; 3]%float H)).
Defined.

(** ** [computeWindowBpm]: the search for the peak lag *)

Lemma autocorrelation_length (data : vec) :
  length (Spec.autocorrelation data) = length data.
Proof. unfold Spec.autocorrelation. now rewrite length_map, length_seq. Qed.

Lemma slice_in_range (v : vec) (first last : Z) :
  0 <= first <= last -> last <= Z.of_nat (length v) ->
  slice v first last = Ok (take (Z.to_nat (last - first)) (drop (Z.to_nat first) v)).
Proof.
  unfold slice. intros [H0 H1] H2.
  apply Z.ltb_ge in H1. apply Z.leb_le in H0, H2. now rewrite H1, H0, H2.
Qed.

Lemma slice_reversed (v : vec) (first last : Z) :
  last < first -> slice v first last = Err LengthError.
Proof. unfold slice. intros H. apply Z.ltb_lt in H. now rewrite H. Qed.

Lemma slice_outside (v : vec) (first last : Z) :
  first <= last -> first < 0 \/ Z.of_nat (length v) < last ->
  slice v first last = Err OutOfBounds.
Proof.
  unfold slice. intros H1 H. apply Z.ltb_ge in H1. rewrite H1.
  destruct (0 <=? first) eqn:H0; [|reflexivity].
  destruct (last <=? Z.of_nat (length v)) eqn:H2; [|reflexivity].
  apply Z.leb_le in H0, H2. lia.
Qed.

Lemma peakLag_in_range (dCSum : vec) (minIndex maxIndex : Z) :
  Z.of_nat (length dCSum) <= 2 ^ 30 ->
  0 <= minIndex <= maxIndex -> maxIndex <= Z.of_nat (length dCSum) ->
  WaveletBPMDetector.peakLag dCSum minIndex maxIndex =
  Ok (minIndex +
      WaveletBPMDetector.detectPeak
        (take (Z.to_nat (maxIndex - minIndex))
           (drop (Z.to_nat minIndex) (Spec.autocorrelation dCSum)))).
Proof.
  intros Hsmall Hmin Hmax. unfold WaveletBPMDetector.peakLag.
  rewrite (correlate_autocorrelation_small dCSum Hsmall). cbn [bind].
  rewrite slice_in_range by (rewrite ?autocorrelation_length; lia). cbn [bind].
  apply int_add_Ok.
  match goal with |- context [WaveletBPMDetector.detectPeak ?t] =>
    pose proof (detectPeak_range t) as Hr;
    assert (Hlen : Z.of_nat (length t) <= maxIndex - minIndex)
      by (rewrite length_take; lia)
  end.
  unfold INT_MIN, INT_MAX.
  assert (2 ^ 30 < 2 ^ 31 - 1) by reflexivity.
  assert (- 2 ^ 31 < -1) by reflexivity. lia.
Qed.

(** X11: the lag range and the envelope, for a composite envelope of at
    most 2^30 values.  When the range lies inside the envelope,
    [0 <= minIndex <= maxIndex <= size], the stage returns the estimate of
    a lag from [minIndex - 1] to [maxIndex - 1].  A reversed range,
    [maxIndex < minIndex], makes the construction of the sub-range of the
    correlation throw [std::length_error].  A range that is not empty and
    leaves the envelope makes it read the correlation out of bounds. *)
Theorem windowBpm_lag_range (sampleRate maxDecimation : float)
    (minIndex maxIndex : Z) (dCSum : vec) :
  Z.of_nat (length dCSum) <= 2 ^ 30 ->
  (0 <= minIndex <= maxIndex -> maxIndex <= Z.of_nat (length dCSum) ->
   exists realLocation,
     minIndex - 1 <= realLocation <= maxIndex - 1 /\
     WaveletBPMDetector.windowBpm sampleRate maxDecimation minIndex maxIndex dCSum
     = Ok (WaveletBPMDetector.bpmOfLag sampleRate maxDecimation realLocation)) /\
  (maxIndex < minIndex ->
   WaveletBPMDetector.windowBpm sampleRate maxDecimation minIndex maxIndex dCSum
   = Err LengthError) /\
  (minIndex < maxIndex ->
   minIndex < 0 \/ Z.of_nat (length dCSum) < maxIndex ->
   WaveletBPMDetector.windowBpm sampleRate maxDecimation minIndex maxIndex dCSum
   = Err OutOfBounds).
Proof.
  intros Hsmall. split; [|split].
  - intros Hmin Hmax. unfold WaveletBPMDetector.windowBpm.
    rewrite peakLag_in_range by assumption. cbn [bind].
    eexists. split; [|reflexivity].
    match goal with |- context [WaveletBPMDetector.detectPeak ?t] =>
      pose proof (detectPeak_range t) as Hr;
      assert (Hlen : Z.of_nat (length t) <= maxIndex - minIndex)
        by (rewrite length_take; lia)
    end.
    lia.
  - intros Hlt. unfold WaveletBPMDetector.windowBpm, WaveletBPMDetector.peakLag.
    rewrite (correlate_autocorrelation_small dCSum Hsmall). cbn [bind].
    rewrite slice_reversed by exact Hlt. reflexivity.
  - intros Hlt Hno. unfold WaveletBPMDetector.windowBpm, WaveletBPMDetector.peakLag.
    rewrite (correlate_autocorrelation_small dCSum Hsmall). cbn [bind].
    rewrite slice_outside by (rewrite ?autocorrelation_length; lia).
    reflexivity.
Qed.

Lemma windowBpm_lag_range_witness :
  Z.of_nat (length [1; 0; 0]%float) <= 2 ^ 30 /\
  WaveletBPMDetector.windowBpm 16 8 2 1 [1; 0; 0]%float = Err LengthError /\
  WaveletBPMDetector.windowBpm 16 8 0 5 [1; 0; 0]%float = Err OutOfBounds.
Proof.
  assert (H : Z.of_nat (length [1; 0; 0]%float) <= 2 ^ 30) by (vm_compute; discriminate).
  assert (Hrev : 1 < 2) by lia.
  assert (Hlt : 0 < 5) by lia.
  assert (Hbig : 0 < 0 \/ Z.of_nat (length [1; 0; 0]%float) < 5)
    by (right; simpl; lia).
  exact (conj H (conj
    (proj1 (proj2 (windowBpm_lag_range 16 8 2 1 [1; 0; 0]%float H)) Hrev)
    (proj2 (proj2 (windowBpm_lag_range 16 8 0 5 [1; 0; 0]%float H)) Hlt Hbig))).
Defined.

(** X12: on a composite envelope of zeros no peak is found, and the estimate
    is computed from the lag [minIndex - 1], one below the lag range. *)
Theorem windowBpm_silence (sampleRate maxDecimation : float)
    (minIndex maxIndex : Z) (dCSum : vec) :
  Forall isZero dCSum ->
  Z.of_nat (length dCSum) <= 2 ^ 30 ->
  0 <= minIndex <= maxIndex ->
  maxIndex <= Z.of_nat (length dCSum) ->
  WaveletBPMDetector.windowBpm sampleRate maxDecimation minIndex maxIndex dCSum =
  Ok (WaveletBPMDetector.bpmOfLag sampleRate maxDecimation (minIndex - 1)).
Proof.
  intros Hzero Hsmall Hmin Hmax. unfold WaveletBPMDetector.windowBpm.
  rewrite peakLag_in_range by assumption. cbn [bind].
  rewrite (autocorrelation_zeros dCSum Hzero), drop_replicate, take_replicate.
  rewrite detectPeak_silence. reflexivity.
Qed.

Lemma windowBpm_silence_witness :
  Forall isZero [0; 0; 0; 0]%float /\
  Z.of_nat (length [0; 0; 0; 0]%float) <= 2 ^ 30 /\
  0 <= 2 <= 4 /\ 4 <= Z.of_nat (length [0; 0; 0; 0]%float) /\
  WaveletBPMDetector.windowBpm 64 8 2 4 [0; 0; 0; 0]%float =
  Ok (WaveletBPMDetector.bpmOfLag 64 8 (2 - 1)).
Proof.
  assert (H1 : Forall isZero [0; 0; 0; 0]%float) by (repeat constructor; now left).
  assert (H2 : Z.of_nat (length [0; 0; 0; 0]%float) <= 2 ^ 30)
    by (vm_compute; discriminate).
  assert (H3 : 0 <= 2 <= 4) by lia.
  assert (H4 : 4 <= Z.of_nat (length [0; 0; 0; 0]%float)) by (simpl; lia).
  exact (conj H1 (conj H2 (conj H3 (conj H4
    (windowBpm_silence 64 8 2 4 [0; 0; 0; 0]%float H1 H2 H3 H4))))).
Defined.

Lemma nth_take_drop (v : vec) (first len k : nat) :
  (k < len)%nat ->
  nth k (take len (drop first v)) 0%float = nth (first + k) v 0%float.
Proof.
  intros Hk. rewrite !nth_lookup, lookup_take_lt, lookup_drop by lia. reflexivity.
Qed.

(** X13: when the peak lag [realLocation] found by [computeWindowBpm] lies in
    the lag range, the correlation of the composite envelope has its
    largest absolute value over the lags [minIndex .. maxIndex) at
    [realLocation]. *)
Theorem peakLag_maximal (dCSum correlated : vec)
    (minIndex maxIndex realLocation : Z) :
  Z.of_nat (length dCSum) <= 2 ^ 30 ->
  WaveletBPMDetector.correlate dCSum = Ok correlated ->
  WaveletBPMDetector.peakLag dCSum minIndex maxIndex = Ok realLocation ->
  minIndex <= realLocation ->
  realLocation < maxIndex /\
  forall lag, minIndex <= lag < maxIndex ->
    PrimFloat.ltb
      (PrimFloat.abs (nth (Z.to_nat realLocation) correlated 0%float))
      (PrimFloat.abs (nth (Z.to_nat lag) correlated 0%float)) = false.
Proof.
  intros Hsmall Hcorr Hpeak Hfound.
  rewrite (correlate_autocorrelation_small dCSum Hsmall) in Hcorr.
  injection Hcorr as <-.
  destruct (peakLag_range _ _ _ _ Hpeak) as [Hmin Hloc].
  split; [lia|].
  assert (Hmax : maxIndex <= Z.of_nat (length dCSum)).
  { unfold WaveletBPMDetector.peakLag in Hpeak.
    rewrite (correlate_autocorrelation_small dCSum Hsmall) in Hpeak. cbn [bind] in Hpeak.
    bind_inv Hpeak as t Ht. apply slice_Ok in Ht. rewrite autocorrelation_length in Ht.
    lia. }
  rewrite peakLag_in_range in Hpeak by assumption. injection Hpeak as Hpeak.
  set (y := Spec.autocorrelation dCSum) in *.
  set (t := take (Z.to_nat (maxIndex - minIndex)) (drop (Z.to_nat minIndex) y)) in *.
  assert (Hk : WaveletBPMDetector.detectPeak t = Z.of_nat (Z.to_nat (realLocation - minIndex)))
    by lia.
  destruct (peak_max_bounds t) as (_ & _ & Hub & _).
  rewrite <- (detectPeak_abs_max t _ Hk) in Hub.
  assert (Hnth : forall j, minIndex <= j < maxIndex ->
                   nth (Z.to_nat (j - minIndex)) t 0%float = nth (Z.to_nat j) y 0%float).
  { intros j Hj. unfold t. rewrite nth_take_drop by lia. f_equal. lia. }
  rewrite Hnth in Hub by lia.
  intros lag Hlag. rewrite <- (Hnth lag Hlag).
  rewrite Forall_forall in Hub. apply Hub.
  apply list_elem_of_In, nth_In.
  unfold t. rewrite length_take, length_drop. unfold y. rewrite autocorrelation_length. lia.
Qed.

Lemma peakLag_maximal_witness :
  Z.of_nat (length [1; 0; 0; 0; 1; 0; 0; 0; 1; 0; 0; 0]%float) <= 2 ^ 30 /\
  WaveletBPMDetector.correlate [1; 0; 0; 0; 1; 0; 0; 0; 1; 0; 0; 0]%float =
    Ok [3; 0; 0; 0; 2; 0; 0; 0; 1; 0; 0; 0]%float /\
  WaveletBPMDetector.peakLag [1; 0; 0; 0; 1; 0; 0; 0; 1; 0; 0; 0]%float 2 12 = Ok 4 /\
  2 <= 4 /\ 4 < 12.
Proof.
  assert (H1 : Z.of_nat (length [1; 0; 0; 0; 1; 0; 0; 0; 1; 0; 0; 0]%float) <= 2 ^ 30)
    by (vm_compute; discriminate).
  assert (H2 : WaveletBPMDetector.correlate [1; 0; 0; 0; 1; 0; 0; 0; 1; 0; 0; 0]%float =
                 Ok [3; 0; 0; 0; 2; 0; 0; 0; 1; 0; 0; 0]%float)
    by (vm_compute; reflexivity).
  assert (H3 : WaveletBPMDetector.peakLag
                 [1; 0; 0; 0; 1; 0; 0; 0; 1; 0; 0; 0]%float 2 12 = Ok 4)
    by (vm_compute; reflexivity).
  assert (H4 : 2 <= 4) by lia.
  exact (conj H1 (conj H2 (conj H3 (conj H4
    (proj1 (peakLag_maximal _ _ 2 12 4 H1 H2 H3 H4)))))).
Defined.

(** ** [computeWindowBpm]: the lag range of a practical sample rate *)

(** The truncation of a double below [2^K]. *)
Lemma shiftl_fits (m : positive) (e K : Z) :
  fits K (Z.pos m) e -> 0 <= K -> 0 <= Z.shiftl (Z.pos m) e < 2 ^ K.
Proof.
  intros [He Hm] HK. split; [apply Z.shiftl_nonneg; lia|].
  destruct (Z_le_gt_dec 0 e) as [Hpos|Hneg].
  - rewrite Z.shiftl_mul_pow2 by lia.
    assert (HK2 : 2 ^ K = 2 ^ (K - e) * 2 ^ e)
      by (rewrite <- Z.pow_add_r by lia; f_equal; lia).
    rewrite HK2. apply Z.mul_lt_mono_pos_r; [apply Z.pow_pos_nonneg; lia|lia].
  - rewrite Z.shiftl_div_pow2 by lia.
    apply Z.div_lt_upper_bound; [apply Z.pow_pos_nonneg; lia|].
    rewrite <- Z.pow_add_r by lia. replace (- e + K) with (K - e) by lia. lia.
Qed.

(** A sample rate in [0, 2^31) is a zero or a positive double below 2^31. *)
Lemma practical_rate (rate : float) :
  PrimFloat.leb 0 rate = true -> PrimFloat.ltb rate 0x1p31 = true ->
  (exists s, Prim2SF rate = S754_zero s) \/
  (exists m e, Prim2SF rate = S754_finite false m e /\ fits 31 (Z.pos m) e).
Proof.
  rewrite FloatAxioms.leb_spec, FloatAxioms.ltb_spec.
  change (Prim2SF 0) with (S754_zero false).
  change (Prim2SF 0x1p31) with (S754_finite false 4503599627370496 (-21)).
  pose proof (Prim2SF_valid rate) as Hvalid.
  destruct (Prim2SF rate) as [s|s| |s m e]; try discriminate.
  - intros _ _. left. now exists s.
  - destruct s; try discriminate.
  - destruct s; [discriminate|]. intros _ Hlt. right. exists m, e.
    split; [reflexivity|].
    apply valid_mantissa in Hvalid. apply SFltb_finite in Hlt.
    unfold fits. destruct Hlt as [He|[-> Hm]].
    + split; [lia|].
      assert (2 ^ 53 <= 2 ^ (31 - e)) by (apply Z.pow_le_mono_r; lia). lia.
    + split; [lia|]. change (2 ^ (31 - -21)) with 4503599627370496. lia.
Qed.

(** A lag bound [(int)(c * rate / 8)] for a positive constant [c] below
    [2^K] and a sample rate in [0, 2^31). *)
Lemma lag_bound (c rate : float) (mc : positive) (ec K : Z) :
  Prim2SF c = S754_finite false mc ec -> fits K (Z.pos mc) ec -> -30 <= K <= 1 ->
  PrimFloat.leb 0 rate = true -> PrimFloat.ltb rate 0x1p31 = true ->
  exists z, double_to_int (c * rate / 8) = Ok z /\ 0 <= z < 2 ^ (K + 30).
Proof.
  intros Hc Hfc HK H0 H31.
  assert (Hpow : 0 < 2 ^ (K + 30)) by (apply Z.pow_pos_nonneg; lia).
  assert (Hmax : 2 ^ (K + 30) <= 2 ^ 31) by (apply Z.pow_le_mono_r; lia).
  assert (Hint : forall z, 0 <= z < 2 ^ (K + 30) -> in_int z = true).
  { intros z Hz. unfold in_int, INT_MIN, INT_MAX. apply andb_true_iff.
    split; apply Z.leb_le; lia. }
  assert (Hzero : exists z, (if in_int 0 then Ok 0 else Err IntConversion) = Ok z /\
                            0 <= z < 2 ^ (K + 30)).
  { exists 0. split; [reflexivity|lia]. }
  unfold double_to_int, trunc_double.
  rewrite FloatAxioms.div_spec, FloatAxioms.mul_spec, Hc.
  change (Prim2SF 8) with (S754_finite false 4503599627370496 (-49)).
  destruct (practical_rate rate H0 H31) as [[s ->]|(m & e & -> & Hfr)].
  - destruct s; exact Hzero.
  - destruct (SFmul_small false false _ _ _ _ _ _ Hfc Hfr ltac:(lia))
      as [Hy|(m1 & e1 & Hy & Hf1)]; simpl xorb in Hy; rewrite Hy.
    + exact Hzero.
    + assert (Hm8 : 2 ^ 52 <= Z.pos 4503599627370496 < 2 ^ 53) by (simpl; lia).
      destruct (SFdiv_small false false m1 4503599627370496 e1 (-49) _
                  Hf1 Hm8 ltac:(lia))
        as [Hx|(m2 & e2 & Hx & Hf2)]; simpl xorb in Hx; rewrite Hx.
      * exact Hzero.
      * replace (K + 31 + 1 - (53 + -49) + 2) with (K + 30) in Hf2 by lia.
        pose proof (shiftl_fits m2 e2 _ Hf2 ltac:(lia)) as Hz.
        exists (Z.shiftl (Z.pos m2) e2). rewrite (Hint _ Hz). auto.
Qed.

(** X14: for every sample rate from 0 up to, but not including, 2^31 Hz the
    two lag bounds are computed without fault, and both are non-negative. *)
Theorem lagRange_returns (sampleRate : float) :
  PrimFloat.leb 0 sampleRate = true ->
  PrimFloat.ltb sampleRate 0x1p31 = true ->
  exists minIndex maxIndex,
    WaveletBPMDetector.lagRange sampleRate 8 = Ok (minIndex, maxIndex) /\
    0 <= minIndex < 2 ^ 29 /\ 0 <= maxIndex <= INT_MAX.
Proof.
  intros H0 H31. unfold WaveletBPMDetector.lagRange.
  destruct (lag_bound (60.0 / 220.0) sampleRate 4913017775313268 (-54) (-1)
              eq_refl ltac:(repeat split; simpl; lia) ltac:(lia) H0 H31)
    as (minIndex & -> & Hmin).
  destruct (lag_bound (60.0 / 40.0) sampleRate 6755399441055744 (-52) 1
              eq_refl ltac:(repeat split; simpl; lia) ltac:(lia) H0 H31)
    as (maxIndex & -> & Hmax).
  exists minIndex, maxIndex. cbn [bind]. split; [reflexivity|].
  unfold INT_MAX. change (2 ^ (1 + 30)) with (2 ^ 31) in Hmax.
  change (2 ^ (-1 + 30)) with (2 ^ 29) in Hmin. lia.
Qed.

Lemma lagRange_returns_witness :
  PrimFloat.leb 0 44100 = true /\ PrimFloat.ltb 44100 0x1p31 = true /\
  exists minIndex maxIndex,
    WaveletBPMDetector.lagRange 44100 8 = Ok (minIndex, maxIndex) /\
    0 <= minIndex < 2 ^ 29 /\ 0 <= maxIndex <= INT_MAX.
Proof.
  exact (conj eq_refl (conj eq_refl (lagRange_returns 44100 eq_refl eq_refl))).
Defined.

(** ** The reference length: exact division by 8 *)

(** Rounding a 53-digit mantissa with nothing behind it changes nothing. *)
Lemma binary_round_aux_exact (s : bool) (m : positive) (e : Z) :
  2 ^ 52 <= Z.pos m < 2 ^ 53 -> -1074 <= e <= 971 ->
  binary_round_aux prec emax s (Z.pos m) e loc_Exact = S754_finite s m e.
Proof.
  intros Hm He.
  assert (Hd : Z.pos (digits2_pos m) = 53) by (apply digits2_unique; simpl Z.sub; lia).
  assert (Hshift : fexp prec emax (53 + e) - e = 0)
    by (unfold fexp, SpecFloat.emin, prec, emax; lia).
  unfold binary_round_aux, shr_fexp. simpl Zdigits2. rewrite Hd, Hshift.
  cbn. rewrite Hd, Hshift. cbn. change (emax - prec) with 971.
  destruct (e <=? 971) eqn:Hle; [reflexivity|]. apply Z.leb_gt in Hle. lia.
Qed.

(** A 54-digit even mantissa loses its last digit, exactly. *)
Lemma binary_round_aux_exact_even (s : bool) (m : positive) (e : Z) :
  2 ^ 52 <= Z.pos m < 2 ^ 53 -> -1074 <= e + 1 <= 971 ->
  binary_round_aux prec emax s (Z.pos m~0) e loc_Exact = S754_finite s m (e + 1).
Proof.
  intros Hm He.
  assert (Hd : Z.pos (digits2_pos m) = 53) by (apply digits2_unique; simpl Z.sub; lia).
  assert (Hd2 : Z.pos (digits2_pos m~0) = 54)
    by (apply digits2_unique; simpl Z.sub; lia).
  assert (Hshift2 : fexp prec emax (54 + e) - e = 1)
    by (unfold fexp, SpecFloat.emin, prec, emax; lia).
  assert (Hshift : fexp prec emax (53 + (e + 1)) - (e + 1) = 0)
    by (unfold fexp, SpecFloat.emin, prec, emax; lia).
  unfold binary_round_aux, shr_fexp.
  change (Zdigits2 (Z.pos m~0)) with (Z.pos (digits2_pos m~0)). rewrite Hd2, Hshift2.
  cbn. rewrite Hd, Hshift. cbn. change (emax - prec) with 971.
  destruct (e + 1 <=? 971) eqn:Hle; [reflexivity|]. apply Z.leb_gt in Hle. lia.
Qed.

(** The conversion of a positive size below 2^31 to [double] is exact. *)
Lemma of_int_exact (L : Z) :
  1 <= L < 2 ^ 31 ->
  exists m e, Prim2SF (of_uint63 (of_Z L)) = S754_finite false m e /\
              2 ^ 52 <= Z.pos m < 2 ^ 53 /\ -52 <= e <= 0 /\
              Z.pos m = L * 2 ^ (- e).
Proof.
  intros HL. rewrite of_uint63_spec, of_Z_spec.
  rewrite Z.mod_small by (change wB with (2 ^ 63); lia).
  destruct L as [|p|p]; try lia.
  unfold binary_normalize, binary_round.
  assert (Hd : 2 ^ 0 <= Z.pos p < 2 ^ 31) by (simpl; lia).
  apply digits2_between in Hd.
  pose proof (digits2_bounds p) as Hb.
  set (d := Z.pos (digits2_pos p)) in *.
  rewrite Z.add_0_r, fexp_normal by lia.
  unfold shl_align. rewrite Z.sub_0_r.
  destruct (d - 53) as [|k|k] eqn:Hk; try lia.
  assert (Hval : Z.pos (Pos.iter xO p k) = Z.pos p * 2 ^ Z.pos k) by apply iter_xO_pow.
  assert (HM : 2 ^ 52 <= Z.pos (Pos.iter xO p k) < 2 ^ 53).
  { rewrite Hval.
    assert (Hk' : Z.pos k = 53 - d) by lia. rewrite Hk'.
    assert (H52 : 2 ^ 52 = 2 ^ (d - 1) * 2 ^ (53 - d))
      by (rewrite <- Z.pow_add_r by lia; f_equal; lia).
    assert (H53 : 2 ^ 53 = 2 ^ d * 2 ^ (53 - d))
      by (rewrite <- Z.pow_add_r by lia; f_equal; lia).
    assert (Hpos : 0 < 2 ^ (53 - d)) by (apply Z.pow_pos_nonneg; lia).
    rewrite H52, H53.
    split; [apply Z.mul_le_mono_nonneg_r; lia|apply Z.mul_lt_mono_pos_r; lia]. }
  rewrite binary_round_aux_exact by (try exact HM; lia).
  exists (Pos.iter xO p k), (Z.neg k). split; [reflexivity|]. split; [exact HM|].
  split; [lia|]. exact Hval.
Qed.

(** Dividing a normal double by 8 lowers its exponent by 3. *)
Lemma SFdiv_8 (m : positive) (e : Z) :
  2 ^ 52 <= Z.pos m < 2 ^ 53 -> -1071 <= e - 3 <= 971 ->
  SF64div (S754_finite false m e) (Prim2SF 8) = S754_finite false m (e - 3).
Proof.
  intros Hm He.
  change (Prim2SF 8) with (S754_finite false 4503599627370496 (-49)).
  unfold SF64div, SFdiv, SFdiv_core_binary. simpl xorb.
  change (Zdigits2 (Z.pos 4503599627370496)) with 53.
  change (Zdigits2 (Z.pos m)) with (Z.pos (digits2_pos m)).
  rewrite (digits2_unique m 53) by (simpl Z.sub; lia).
  replace (53 + e - (53 + -49)) with (e + 49) by lia.
  rewrite fexp_normal by lia.
  rewrite Z.min_l by lia.
  replace (e - -49 - (e + 49 - 53)) with 53 by lia.
  cbv iota beta.
  rewrite Z.shiftl_mul_pow2 by lia.
  replace (Z.pos m * 2 ^ 53) with (Z.pos m~0 * 4503599627370496)
    by (rewrite Pos2Z.inj_xO; change (2 ^ 53) with (2 * 4503599627370496); ring).
  assert (Hdiv : Z.div_eucl (Z.pos m~0 * 4503599627370496) 4503599627370496
                 = (Z.pos m~0, 0)).
  { pose proof (Z_div_mod (Z.pos m~0 * 4503599627370496) 4503599627370496
                  ltac:(lia)) as Hdm.
    destruct (Z.div_eucl _ _) as [q r]. destruct Hdm as [Heq Hr].
    assert (q = Z.pos m~0) by nia. subst q. f_equal. lia. }
  rewrite Hdiv. cbv iota beta.
  change (new_location 4503599627370496 0) with loc_Exact.
  rewrite binary_round_aux_exact_even by (try exact Hm; lia).
  f_equal. lia.
Qed.

Lemma size_div_8 (n : nat) :
  Z.of_nat n <= INT_MAX ->
  double_to_int (size_to_double n / 8) = Ok (Z.of_nat n / 8).
Proof.
  intros Hn. unfold INT_MAX in Hn.
  destruct (Z.eq_dec (Z.of_nat n) 0) as [H0|H0].
  - unfold size_to_double. rewrite H0. reflexivity.
  - unfold size_to_double, double_to_int, trunc_double.
    destruct (of_int_exact (Z.of_nat n)) as (m & e & Hsf & Hm & He & Hval); [lia|].
    rewrite FloatAxioms.div_spec, Hsf, SFdiv_8 by (try exact Hm; lia).
    rewrite Z.shiftl_div_pow2 by lia.
    replace (- (e - 3)) with (- e + 3) by lia.
    rewrite Z.pow_add_r, Hval by lia.
    rewrite (Z.mul_comm (Z.of_nat n)).
    rewrite Z.div_mul_cancel_l by (try apply Z.pow_nonzero; lia).
    change (2 ^ 3) with 8.
    assert (Hq : 0 <= Z.of_nat n / 8 < 2 ^ 31 - 1).
    { split; [apply Z.div_pos; lia|]. apply Z.div_lt_upper_bound; lia. }
    unfold in_int, INT_MIN, INT_MAX.
    destruct (- 2 ^ 31 <=? Z.of_nat n / 8) eqn:H1; [|apply Z.leb_gt in H1; lia].
    destruct (Z.of_nat n / 8 <=? 2 ^ 31 - 1) eqn:H2; [|apply Z.leb_gt in H2; lia].
    reflexivity.
Qed.

(** X15: the reference length computed in [double] on line 56 is exact: for
    a level-0 detail band of [n] values, [n] fitting an [int], it is
    [floor(n / 8) + 1], with no rounding or conversion fault. *)
Theorem dCMinLength_exact (decomp : list WaveletBPMDetector.decomposition)
    (d0 : WaveletBPMDetector.decomposition) :
  WaveletBPMDetector.level decomp 0 = Ok d0 ->
  Z.of_nat (length (snd d0)) <= INT_MAX ->
  WaveletBPMDetector.dCMinLength decomp 8 = Ok (Z.of_nat (length (snd d0)) / 8 + 1).
Proof.
  intros Hlevel Hlen. unfold WaveletBPMDetector.dCMinLength.
  rewrite Hlevel. cbn [bind]. rewrite size_div_8 by exact Hlen. cbn [bind].
  apply int_add_Ok. unfold INT_MIN, INT_MAX in *.
  assert (0 <= Z.of_nat (length (snd d0)) / 8 < 2 ^ 31 - 1).
  { split; [apply Z.div_pos; lia|]. apply Z.div_lt_upper_bound; lia. }
  lia.
Qed.

Lemma dCMinLength_exact_witness :
  let decomp : list WaveletBPMDetector.decomposition :=
    [([], [1; 2; 3; 4; 5; 6; 7; 8; 9; 10; 11; 12; 13; 14; 15; 16; 17]%float)] in
  WaveletBPMDetector.level decomp 0 =
    Ok ([], [1; 2; 3; 4; 5; 6; 7; 8; 9; 10; 11; 12; 13; 14; 15; 16; 17]%float) /\
  WaveletBPMDetector.dCMinLength decomp 8 = Ok (17 / 8 + 1).
Proof.
  intros decomp.
  assert (H1 : WaveletBPMDetector.level decomp 0 =
    Ok ([], [1; 2; 3; 4; 5; 6; 7; 8; 9; 10; 11; 12; 13; 14; 15; 16; 17]%float))
    by reflexivity.
  assert (H2 : Z.of_nat (length (snd (([],
    [1; 2; 3; 4; 5; 6; 7; 8; 9; 10; 11; 12; 13; 14; 15; 16; 17]%float)
      : WaveletBPMDetector.decomposition))) <= INT_MAX) by (vm_compute; discriminate).
  exact (conj H1 (dCMinLength_exact decomp _ H1 H2)).
Defined.

(** ** [computeWindowBpm]: the decimation of the first detail band *)

(** X16: [computeWindowBpm] returns no estimate for a window whose level-0
    detail band is not empty: once the lag range is computed and the window
    decomposed, the decimation of that band by 8 writes outside its result. *)
Theorem computeWindowBpm_detail_out_of_bounds
    (decompose : vec -> Z -> result (list WaveletBPMDetector.decomposition))
    (sampleRate : float) (data : vec) (range : Z * Z)
    (decomp : list WaveletBPMDetector.decomposition)
    (d0 : WaveletBPMDetector.decomposition) :
  WaveletBPMDetector.lagRange sampleRate 8 = Ok range ->
  decompose data 4 = Ok decomp ->
  WaveletBPMDetector.level decomp 0 = Ok d0 ->
  snd d0 <> [] ->
  Z.of_nat (length (snd d0)) <= INT_MAX ->
  WaveletBPMDetector.undersample (snd d0) 8 = Err OutOfBounds /\
  WaveletBPMDetector.computeWindowBpm decompose sampleRate data = Err OutOfBounds.
Proof.
  intros Hrange Hdecomp Hlevel Hne Hlen.
  assert (Hunder : WaveletBPMDetector.undersample (snd d0) 8 = Err OutOfBounds)
    by (apply undersample_nonempty_faults; [exact Hne|lia|exact Hlen]).
  split; [exact Hunder|].
  unfold WaveletBPMDetector.computeWindowBpm.
  change (2 ^ (4 - 1)) with 8. change (int_to_double 8) with 8%float.
  rewrite Hrange. cbn [bind]. rewrite Hdecomp. cbn [bind].
  unfold WaveletBPMDetector.envelopeSum, WaveletBPMDetector.dCMinLength.
  rewrite Hlevel. cbn [bind]. rewrite size_div_8 by exact Hlen. cbn [bind].
  assert (Hq : 0 <= Z.of_nat (length (snd d0)) / 8 < 2 ^ 31 - 1).
  { unfold INT_MAX in Hlen.
    split; [apply Z.div_pos; lia|]. apply Z.div_lt_upper_bound; lia. }
  rewrite int_add_Ok by (unfold INT_MIN, INT_MAX; lia). cbn [bind].
  unfold new_vector.
  destruct (Z.of_nat (length (snd d0)) / 8 + 1 <? 0) eqn:Hneg;
    [apply Z.ltb_lt in Hneg; lia|].
  cbn [bind]. change (Z.to_nat 4) with 4%nat. rewrite for_loop_S.
  unfold WaveletBPMDetector.envelope_step at 1.
  rewrite Hlevel. cbn [bind snd]. rewrite Hunder. reflexivity.
Qed.

Lemma computeWindowBpm_detail_out_of_bounds_witness :
  let decomp : list WaveletBPMDetector.decomposition :=
    [([1; 2]%float, [3; 4]%float); ([1%float], [2%float]); ([], []); ([], [])] in
  WaveletBPMDetector.lagRange 44100 8 = Ok (1503, 8268) /\
  WaveletBPMDetector.level decomp 0 = Ok ([1; 2]%float, [3; 4]%float) /\
  [3; 4]%float <> [] /\
  Z.of_nat (length [3; 4]%float) <= INT_MAX /\
  WaveletBPMDetector.computeWindowBpm (fun _ _ => Ok decomp) 44100 [1; 2; 3; 4]%float
  = Err OutOfBounds.
Proof.
  intros decomp.
  assert (H1 : WaveletBPMDetector.lagRange 44100 8 = Ok (1503, 8268))
    by (vm_compute; reflexivity).
  assert (H2 : WaveletBPMDetector.level decomp 0 = Ok ([1; 2]%float, [3; 4]%float))
    by reflexivity.
  assert (H3 : [3; 4]%float <> []) by discriminate.
  assert (H4 : Z.of_nat (length [3; 4]%float) <= INT_MAX) by (vm_compute; discriminate).
  exact (conj H1 (conj H2 (conj H3 (conj H4
    (proj2 (computeWindowBpm_detail_out_of_bounds (fun _ _ => Ok decomp) 44100
              [1; 2; 3; 4]%float (1503, 8268) decomp ([1; 2]%float, [3; 4]%float)
              H1 eq_refl H2 H3 H4)))))).
Defined.

(** X17: the only estimate [computeWindowBpm] can return.  When it returns
    for a decomposition whose level-0 detail band has a size that fits an
    [int], that band is empty, the lag range is the empty range [0 .. 0)
    and the estimate is the one of the lag -1. *)
Theorem computeWindowBpm_returns_only_degenerate
    (decompose : vec -> Z -> result (list WaveletBPMDetector.decomposition))
    (sampleRate : float) (data : vec)
    (decomp : list WaveletBPMDetector.decomposition)
    (d0 : WaveletBPMDetector.decomposition) (bpm : float) :
  decompose data 4 = Ok decomp ->
  WaveletBPMDetector.level decomp 0 = Ok d0 ->
  Z.of_nat (length (snd d0)) <= INT_MAX ->
  WaveletBPMDetector.computeWindowBpm decompose sampleRate data = Ok bpm ->
  snd d0 = [] /\
  WaveletBPMDetector.lagRange sampleRate 8 = Ok (0, 0) /\
  bpm = WaveletBPMDetector.bpmOfLag sampleRate 8 (-1).
Proof.
  intros Hdecomp Hlevel Hlen H.
  unfold WaveletBPMDetector.computeWindowBpm in H.
  change (2 ^ (4 - 1)) with 8 in H. change (int_to_double 8) with 8%float in H.
  bind_inv H as range Hrange. rewrite Hdecomp in H. cbn [bind] in H.
  bind_inv H as dCSum Hsum.
  destruct (envelopeSum_length_level0 decomp 4 8 8 d0 dCSum ltac:(lia) Hlevel Hsum)
    as (dC & Hunder & Hsize).
  assert (Hempty : snd d0 = []).
  { destruct (snd d0) as [|x l] eqn:Hd; [reflexivity|].
    rewrite undersample_nonempty_faults in Hunder by (try discriminate; lia).
    discriminate. }
  rewrite Hempty in Hunder. injection Hunder as <-.
  destruct dCSum; [|discriminate].
  unfold WaveletBPMDetector.windowBpm in H. bind_inv H as realLocation Hpeak.
  injection H as <-.
  unfold WaveletBPMDetector.peakLag in Hpeak.
  change (WaveletBPMDetector.correlate []) with (Ok ([] : vec)) in Hpeak.
  cbn [bind] in Hpeak. bind_inv Hpeak as t Ht.
  apply slice_Ok in Ht as (Hmin & Hmax & Ht). simpl in Hmax.
  destruct t; [|simpl in Ht; lia].
  change (WaveletBPMDetector.detectPeak []) with (-1) in Hpeak.
  apply int_add_inv in Hpeak as [-> _].
  destruct range as [minIndex maxIndex]. simpl in *.
  assert (minIndex = 0) by lia. assert (maxIndex = 0) by lia. subst.
  auto.
Qed.

Lemma computeWindowBpm_returns_only_degenerate_witness :
  let decomp : list WaveletBPMDetector.decomposition :=
    [([], []); ([], []); ([], []); ([], [])] in
  WaveletBPMDetector.level decomp 0 = Ok ([], []) /\
  WaveletBPMDetector.computeWindowBpm (fun _ _ => Ok decomp) 1 [] = Ok (-7.5)%float /\
  WaveletBPMDetector.lagRange 1 8 = Ok (0, 0) /\
  (-7.5)%float = WaveletBPMDetector.bpmOfLag 1 8 (-1).
Proof.
  intros decomp.
  assert (H1 : WaveletBPMDetector.level decomp 0 = Ok ([], [])) by reflexivity.
  assert (H2 : Z.of_nat (length (snd (([], []) : WaveletBPMDetector.decomposition)))
               <= INT_MAX) by (vm_compute; discriminate).
  assert (H3 : WaveletBPMDetector.computeWindowBpm (fun _ _ => Ok decomp) 1 []
               = Ok (-7.5)%float) by (vm_compute; reflexivity).
  exact (conj H1 (conj H3
    (proj2 (computeWindowBpm_returns_only_degenerate (fun _ _ => Ok decomp) 1 []
              decomp ([], []) (-7.5)%float eq_refl H1 H2 H3)))).
Defined.

(** ** [computeWindowBpm] on the decomposition of a real window *)

(** The envelope stage, lines 56 to 83, with the parameters of the code
    (4 levels, pace 8): on a level-0 detail band that is not empty the
    first decimation stores outside its result. *)
Lemma envelopeSum_detail_out_of_bounds
    (decomp : list WaveletBPMDetector.decomposition)
    (d0 : WaveletBPMDetector.decomposition) :
  WaveletBPMDetector.level decomp 0 = Ok d0 ->
  snd d0 <> [] ->
  Z.of_nat (length (snd d0)) <= INT_MAX ->
  WaveletBPMDetector.envelopeSum decomp 4 8 8 = Err OutOfBounds.
Proof.
  intros Hlevel Hne Hlen.
  unfold WaveletBPMDetector.envelopeSum, WaveletBPMDetector.dCMinLength.
  rewrite Hlevel. cbn [bind]. rewrite size_div_8 by exact Hlen. cbn [bind].
  assert (Hq : 0 <= Z.of_nat (length (snd d0)) / 8 < 2 ^ 31 - 1).
  { unfold INT_MAX in Hlen.
    split; [apply Z.div_pos; lia|]. apply Z.div_lt_upper_bound; lia. }
  rewrite int_add_Ok by (unfold INT_MIN, INT_MAX; lia). cbn [bind].
  unfold new_vector.
  destruct (Z.of_nat (length (snd d0)) / 8 + 1 <? 0) eqn:Hneg;
    [apply Z.ltb_lt in Hneg; lia|].
  cbn [bind]. change (Z.to_nat 4) with 4%nat. rewrite for_loop_S.
  unfold WaveletBPMDetector.envelope_step at 1.
  rewrite Hlevel. cbn [bind snd].
  rewrite undersample_nonempty_faults by (try assumption; lia). reflexivity.
Qed.

(** The only composite envelope the stage returns is the empty one, for an
    empty level-0 detail band. *)
Lemma envelopeSum_returns_empty
    (decomp : list WaveletBPMDetector.decomposition)
    (d0 : WaveletBPMDetector.decomposition) (dCSum : vec) :
  WaveletBPMDetector.level decomp 0 = Ok d0 ->
  Z.of_nat (length (snd d0)) <= INT_MAX ->
  WaveletBPMDetector.envelopeSum decomp 4 8 8 = Ok dCSum ->
  snd d0 = [] /\ dCSum = [].
Proof.
  intros Hlevel Hlen H.
  destruct (snd d0) as [|x l] eqn:Hd.
  - split; [reflexivity|].
    destruct (envelopeSum_length_level0 decomp 4 8 8 d0 dCSum ltac:(lia) Hlevel H)
      as (dC & Hunder & Hsize).
    rewrite Hd in Hunder. injection Hunder as <-.
    destruct dCSum; [reflexivity|discriminate].
  - rewrite (envelopeSum_detail_out_of_bounds decomp d0 Hlevel) in H;
      [discriminate|rewrite Hd; discriminate|rewrite Hd; exact Hlen].
Qed.

(** The last stage on the empty composite envelope. *)
Lemma windowBpm_empty (sampleRate maxDecimation : float) (minIndex maxIndex : Z)
    (bpm : float) :
  WaveletBPMDetector.windowBpm sampleRate maxDecimation minIndex maxIndex [] = Ok bpm ->
  minIndex = 0 /\ maxIndex = 0 /\
  bpm = WaveletBPMDetector.bpmOfLag sampleRate maxDecimation (-1).
Proof.
  unfold WaveletBPMDetector.windowBpm, WaveletBPMDetector.peakLag. intros H.
  bind_inv H as realLocation Hpeak. injection H as <-.
  change (WaveletBPMDetector.correlate []) with (Ok ([] : vec)) in Hpeak.
  cbn [bind] in Hpeak. bind_inv Hpeak as t Ht.
  apply slice_Ok in Ht as (Hmin & Hmax & Ht). simpl in Hmax.
  destruct t; [|simpl in Ht; lia].
  change (WaveletBPMDetector.detectPeak []) with (-1) in Hpeak.
  apply int_add_inv in Hpeak as [-> _].
  assert (minIndex = 0) by lia. assert (maxIndex = 0) by lia. subst. auto.
Qed.

(** The estimate computed from the lag -1 is not positive, whatever the
    positive sample rate. *)
Lemma bpmOfLag_minus_one (sampleRate : float) :
  PrimFloat.ltb 0 sampleRate = true ->
  PrimFloat.ltb 0 (WaveletBPMDetector.bpmOfLag sampleRate 8 (-1)) = false.
Proof.
  unfold WaveletBPMDetector.bpmOfLag.
  change (int_to_double (-1)) with (-1)%float.
  change (60.0 / -1)%float with (-60)%float.
  rewrite !FloatAxioms.ltb_spec, FloatAxioms.mul_spec, FloatAxioms.div_spec.
  change (Prim2SF 0) with (S754_zero false).
  change (Prim2SF (-60)) with (S754_finite true 8444249301319680 (-47)).
  change (Prim2SF 8) with (S754_finite false 4503599627370496 (-49)).
  destruct (Prim2SF sampleRate) as [s|s| |s m e]; try discriminate.
  - destruct s; [discriminate|]. reflexivity.
  - destruct s; [discriminate|]. intros _.
    unfold SF64div, SFdiv. simpl xorb.
    destruct (SFdiv_core_binary prec emax (Z.pos m) e _ _) as [[q e1] l1].
    pose proof (binary_round_aux_signed false q e1 l1) as Hs.
    destruct (binary_round_aux prec emax false q e1 l1) as [s1|s1| |s1 m1 e1'];
      simpl in Hs; subst; try reflexivity.
    unfold SF64mul, SFmul. simpl xorb.
    pose proof (binary_round_aux_signed true (Z.pos (8444249301319680 * m1))
                  (-47 + e1') loc_Exact) as Hs2.
    destruct (binary_round_aux prec emax true _ _ _) as [s2|s2| |s2 m2 e2];
      simpl in Hs2; subst; reflexivity.
Qed.

Lemma lagRange_practical (sampleRate : float) :
  PrimFloat.leb 0 sampleRate = true ->
  PrimFloat.ltb sampleRate 0x1p31 = true ->
  exists range, WaveletBPMDetector.lagRange sampleRate 8 = Ok range.
Proof.
  intros H0 H31. unfold WaveletBPMDetector.lagRange.
  destruct (lag_bound (60.0 / 220.0) sampleRate 4913017775313268 (-54) (-1)
              eq_refl ltac:(repeat split; simpl; lia) ltac:(lia) H0 H31)
    as (minIndex & -> & _).
  destruct (lag_bound (60.0 / 40.0) sampleRate 6755399441055744 (-52) 1
              eq_refl ltac:(repeat split; simpl; lia) ltac:(lia) H0 H31)
    as (maxIndex & -> & _).
  cbn [bind]. eauto.
Qed.

(** C5: the reference length is computed as the claim says, but the code
    produces no composite envelope of that length.  For every decomposition
    whose level-0 detail band has [n] values, [n] fitting an [int]: the
    reference length is [floor(n / 8) + 1]; when the band is not empty the
    envelope stage ends in the out-of-bounds store of [undersample]; and
    the only envelope the stage ever returns is the empty one, for an empty
    band, which has not the reference length either. *)
Theorem envelopeSum_never_minLen
    (decomp : list WaveletBPMDetector.decomposition)
    (d0 : WaveletBPMDetector.decomposition) :
  WaveletBPMDetector.level decomp 0 = Ok d0 ->
  Z.of_nat (length (snd d0)) <= INT_MAX ->
  WaveletBPMDetector.dCMinLength decomp 8
    = Ok (Z.of_nat (length (snd d0)) / 8 + 1) /\
  (snd d0 <> [] ->
   WaveletBPMDetector.envelopeSum decomp 4 8 8 = Err OutOfBounds) /\
  (forall dCSum,
     WaveletBPMDetector.envelopeSum decomp 4 8 8 = Ok dCSum ->
     snd d0 = [] /\ dCSum = [] /\
     Z.of_nat (length dCSum) <> Z.of_nat (length (snd d0)) / 8 + 1).
Proof.
  intros Hlevel Hlen. split; [|split].
  - unfold WaveletBPMDetector.dCMinLength.
    rewrite Hlevel. cbn [bind]. rewrite size_div_8 by exact Hlen. cbn [bind].
    apply int_add_Ok. unfold INT_MIN, INT_MAX in *.
    assert (0 <= Z.of_nat (length (snd d0)) / 8 < 2 ^ 31 - 1).
    { split; [apply Z.div_pos; lia|]. apply Z.div_lt_upper_bound; lia. }
    lia.
  - intros Hne. now apply (envelopeSum_detail_out_of_bounds decomp d0).
  - intros dCSum H.
    destruct (envelopeSum_returns_empty decomp d0 dCSum Hlevel Hlen H) as [Hd ->].
    rewrite Hd. repeat split. discriminate.
Qed.

Lemma envelopeSum_never_minLen_witness :
  let half := fun a : vec => take (Nat.div (length a) 2) a in
  let window := [1; 2; 3; 4; 5; 6; 7; 8; 9; 10; 11; 12; 13; 14; 15; 16]%float in
  let decomp : list WaveletBPMDetector.decomposition :=
    [([1; 2; 3; 4; 5; 6; 7; 8]%float, [1; 2; 3; 4; 5; 6; 7; 8]%float);
     ([1; 2; 3; 4]%float, [1; 2; 3; 4]%float);
     ([1; 2]%float, [1; 2]%float);
     ([1%float], [1%float])] in
  Daubechies8.decompose half half window 4 = Ok decomp /\
  WaveletBPMDetector.level decomp 0
    = Ok ([1; 2; 3; 4; 5; 6; 7; 8]%float, [1; 2; 3; 4; 5; 6; 7; 8]%float) /\
  Z.of_nat (length [1; 2; 3; 4; 5; 6; 7; 8]%float) <= INT_MAX /\
  WaveletBPMDetector.dCMinLength decomp 8 = Ok 2 /\
  WaveletBPMDetector.envelopeSum decomp 4 8 8 = Err OutOfBounds.
Proof.
  intros half window decomp.
  assert (H0 : Daubechies8.decompose half half window 4 = Ok decomp) by reflexivity.
  assert (H1 : WaveletBPMDetector.level decomp 0
               = Ok ([1; 2; 3; 4; 5; 6; 7; 8]%float, [1; 2; 3; 4; 5; 6; 7; 8]%float))
    by reflexivity.
  assert (H2 : Z.of_nat (length (snd (([1; 2; 3; 4; 5; 6; 7; 8]%float,
                 [1; 2; 3; 4; 5; 6; 7; 8]%float) : WaveletBPMDetector.decomposition)))
               <= INT_MAX) by (vm_compute; discriminate).
  assert (H3 : snd (([1; 2; 3; 4; 5; 6; 7; 8]%float,
                 [1; 2; 3; 4; 5; 6; 7; 8]%float) : WaveletBPMDetector.decomposition)
               <> []) by discriminate.
  exact (conj H0 (conj H1 (conj H2
    (conj (proj1 (envelopeSum_never_minLen decomp _ H1 H2))
          (proj1 (proj2 (envelopeSum_never_minLen decomp _ H1 H2)) H3))))).
Defined.

(** C6: [computeWindowBpm] returns no strictly positive estimate.  For
    every positive sample rate, every decomposer and every window whose
    level-0 detail band has a size that fits an [int]: when the band is
    not empty (and the sample rate is below 2^31 Hz, so that the lag bounds
    are computed) the function ends in the out-of-bounds store of
    [undersample] and returns nothing; and whenever it does return, the
    band is empty, the lag is [minIndex + (-1) = -1] and the estimate is
    not positive. *)
Theorem computeWindowBpm_no_positive_estimate
    (decompose : vec -> Z -> result (list WaveletBPMDetector.decomposition))
    (sampleRate : float) (data : vec)
    (decomp : list WaveletBPMDetector.decomposition)
    (d0 : WaveletBPMDetector.decomposition) :
  PrimFloat.ltb 0 sampleRate = true ->
  decompose data 4 = Ok decomp ->
  WaveletBPMDetector.level decomp 0 = Ok d0 ->
  Z.of_nat (length (snd d0)) <= INT_MAX ->
  (PrimFloat.ltb sampleRate 0x1p31 = true -> snd d0 <> [] ->
   WaveletBPMDetector.computeWindowBpm decompose sampleRate data = Err OutOfBounds) /\
  (forall bpm,
     WaveletBPMDetector.computeWindowBpm decompose sampleRate data = Ok bpm ->
     snd d0 = [] /\
     bpm = WaveletBPMDetector.bpmOfLag sampleRate 8 (-1) /\
     PrimFloat.ltb 0 bpm = false).
Proof.
  intros Hrate Hdecomp Hlevel Hlen. split.
  - intros H31 Hne.
    destruct (lagRange_practical sampleRate (ltb_leb _ _ Hrate) H31) as [range Hrange].
    unfold WaveletBPMDetector.computeWindowBpm.
    change (2 ^ (4 - 1)) with 8. change (int_to_double 8) with 8%float.
    rewrite Hrange. cbn [bind]. rewrite Hdecomp. cbn [bind].
    rewrite (envelopeSum_detail_out_of_bounds decomp d0 Hlevel Hne Hlen).
    reflexivity.
  - intros bpm H.
    unfold WaveletBPMDetector.computeWindowBpm in H.
    change (2 ^ (4 - 1)) with 8 in H. change (int_to_double 8) with 8%float in H.
    bind_inv H as range Hrange. rewrite Hdecomp in H. cbn [bind] in H.
    bind_inv H as dCSum Hsum.
    destruct (envelopeSum_returns_empty decomp d0 dCSum Hlevel Hlen Hsum) as [Hd ->].
    apply windowBpm_empty in H as (_ & _ & ->).
    split; [exact Hd|]. split; [reflexivity|].
    now apply bpmOfLag_minus_one.
Qed.

Lemma computeWindowBpm_no_positive_estimate_witness :
  let half := fun a : vec => take (Nat.div (length a) 2) a in
  let window := [1; 2; 3; 4; 5; 6; 7; 8; 9; 10; 11; 12; 13; 14; 15; 16]%float in
  let decomp : list WaveletBPMDetector.decomposition :=
    [([1; 2; 3; 4; 5; 6; 7; 8]%float, [1; 2; 3; 4; 5; 6; 7; 8]%float);
     ([1; 2; 3; 4]%float, [1; 2; 3; 4]%float);
     ([1; 2]%float, [1; 2]%float);
     ([1%float], [1%float])] in
  PrimFloat.ltb 0 44100 = true /\
  Daubechies8.decompose half half window 4 = Ok decomp /\
  WaveletBPMDetector.level decomp 0
    = Ok ([1; 2; 3; 4; 5; 6; 7; 8]%float, [1; 2; 3; 4; 5; 6; 7; 8]%float) /\
  Z.of_nat (length [1; 2; 3; 4; 5; 6; 7; 8]%float) <= INT_MAX /\
  WaveletBPMDetector.computeWindowBpm (Daubechies8.decompose half half) 44100 window
  = Err OutOfBounds.
Proof.
  intros half window decomp.
  assert (Hr : PrimFloat.ltb 0 44100 = true) by reflexivity.
  assert (H0 : Daubechies8.decompose half half window 4 = Ok decomp) by reflexivity.
  assert (H1 : WaveletBPMDetector.level decomp 0
               = Ok ([1; 2; 3; 4; 5; 6; 7; 8]%float, [1; 2; 3; 4; 5; 6; 7; 8]%float))
    by reflexivity.
  assert (H2 : Z.of_nat (length (snd (([1; 2; 3; 4; 5; 6; 7; 8]%float,
                 [1; 2; 3; 4; 5; 6; 7; 8]%float) : WaveletBPMDetector.decomposition)))
               <= INT_MAX) by (vm_compute; discriminate).
  assert (H3 : snd (([1; 2; 3; 4; 5; 6; 7; 8]%float,
                 [1; 2; 3; 4; 5; 6; 7; 8]%float) : WaveletBPMDetector.decomposition)
               <> []) by discriminate.
  assert (H31 : PrimFloat.ltb 44100 0x1p31 = true) by reflexivity.
  exact (conj Hr (conj H0 (conj H1 (conj H2
    (proj1 (computeWindowBpm_no_positive_estimate
              (Daubechies8.decompose half half) 44100 window decomp _
              Hr H0 H1 H2) H31 H3))))).
Defined.

(** ** Capture set-up: the constructed object *)

(** X18: an object is constructed only when the three checked calls have
    succeeded; its members are the negotiated parameters, with the sample
    format translated to a width in bits (or left as it was for a format the
    constructor does not know), and neither a rate of 0 nor a format of -1
    is ever left in it. *)
Theorem audio_data_constructed (lib : AudioData.alsa)
    (initial object : AudioData.members) :
  AudioData.audio_data lib initial = AudioData.Constructed object ->
  ~ AudioData.setupFails lib /\
  AudioData.format object =
    AudioData.bits (AudioData.snd_pcm_hw_params_get_format lib)
      (AudioData.format initial) /\
  AudioData.rate object = AudioData.snd_pcm_hw_params_get_rate lib /\
  AudioData.frames object = AudioData.snd_pcm_hw_params_get_period_size lib /\
  AudioData.channels object = AudioData.snd_pcm_hw_params_get_channels lib /\
  AudioData.format object <> -1 /\
  AudioData.rate object <> 0 /\
  (AudioData.snd_pcm_hw_params_get_format lib <> AudioData.SND_PCM_FORMAT_OTHER ->
   In (AudioData.format object) [8; 16; 24; 32]).
Proof.
  unfold AudioData.audio_data, AudioData.setupFails.
  destruct (AudioData.snd_pcm_open lib <? 0) eqn:Ho; [discriminate|].
  destruct (AudioData.snd_pcm_hw_params lib <? 0) eqn:Hp; [discriminate|].
  destruct (AudioData.snd_pcm_prepare lib <? 0) eqn:Hr; [discriminate|].
  destruct (AudioData.bits _ _ =? -1) eqn:Hf; [discriminate|].
  destruct (AudioData.snd_pcm_hw_params_get_rate lib =? 0) eqn:Hz; [discriminate|].
  simpl. intros [= <-]. simpl.
  apply Z.ltb_ge in Ho, Hp, Hr. apply Z.eqb_neq in Hf, Hz.
  repeat split; try assumption; try lia.
  intros Hknown.
  destruct (AudioData.snd_pcm_hw_params_get_format lib); simpl; tauto.
Qed.

Lemma audio_data_constructed_witness :
  let lib := {| AudioData.snd_pcm_open := 0;
                AudioData.snd_pcm_hw_params := 0;
                AudioData.snd_pcm_prepare := 0;
                AudioData.snd_pcm_hw_params_get_format := AudioData.SND_PCM_FORMAT_S16_LE;
                AudioData.snd_pcm_hw_params_get_rate := 44100;
                AudioData.snd_pcm_hw_params_get_period_size := 256;
                AudioData.snd_pcm_hw_params_get_channels := 2;
                AudioData.snd_strerror := fun _ => "Success"%string |} in
  let initial := {| AudioData.format := -1; AudioData.rate := 0;
                    AudioData.frames := 0; AudioData.channels := 0 |} in
  let object := {| AudioData.format := 16; AudioData.rate := 44100;
                   AudioData.frames := 256; AudioData.channels := 2 |} in
  AudioData.audio_data lib initial = AudioData.Constructed object /\
  AudioData.format object <> -1 /\ AudioData.rate object <> 0.
Proof.
  intros lib initial object.
  assert (H : AudioData.audio_data lib initial = AudioData.Constructed object)
    by reflexivity.
  pose proof (audio_data_constructed lib initial object H) as (_ & _ & _ & _ & _ & Hf & Hr & _).
  exact (conj H (conj Hf Hr)).
Defined.

(** X19: the constructor terminates the process exactly when one of the
    three checked calls fails, when the format it ends with is -1, or when
    the negotiated rate is 0; whenever it does, the exit status is
    [EXIT_FAILURE]. *)
Theorem audio_data_exits_iff (lib : AudioData.alsa) (initial : AudioData.members) :
  (AudioData.terminates (AudioData.audio_data lib initial) <->
   AudioData.setupFails lib \/
   AudioData.bits (AudioData.snd_pcm_hw_params_get_format lib)
     (AudioData.format initial) = -1 \/
   AudioData.snd_pcm_hw_params_get_rate lib = 0) /\
  (forall status message,
     AudioData.audio_data lib initial = AudioData.Exit status message ->
     status = AudioData.EXIT_FAILURE).
Proof.
  unfold AudioData.audio_data, AudioData.setupFails.
  destruct (AudioData.snd_pcm_open lib <? 0) eqn:Ho;
    [apply Z.ltb_lt in Ho; simpl; split; [tauto|congruence]|].
  destruct (AudioData.snd_pcm_hw_params lib <? 0) eqn:Hp;
    [apply Z.ltb_lt in Hp; simpl; split; [tauto|congruence]|].
  destruct (AudioData.snd_pcm_prepare lib <? 0) eqn:Hr;
    [apply Z.ltb_lt in Hr; simpl; split; [tauto|congruence]|].
  apply Z.ltb_ge in Ho, Hp, Hr.
  destruct (AudioData.bits _ _ =? -1) eqn:Hf;
    [apply Z.eqb_eq in Hf; simpl; split; [tauto|congruence]|].
  destruct (AudioData.snd_pcm_hw_params_get_rate lib =? 0) eqn:Hz;
    [apply Z.eqb_eq in Hz; simpl; split; [tauto|congruence]|].
  apply Z.eqb_neq in Hf, Hz. simpl. split; [|discriminate].
  split; [contradiction|]. lia.
Qed.
